(** * Pack current-distribution solver of [examples/run_pack_discharge_ecm.py]

    A shallow embedding of the battery-pack part of the script (lines 71-85):
    the static per-cell grids, the per-timestep solver loop and the
    transpose-and-reshape that flattens the solved currents.

    Arrays.  A numpy array of shape [(n_series, n_parallel)] is a list of
    [n_series] rows of length [n_parallel]; the three-dimensional [i_cells]
    is a list of such grids, one per timestep.  The shape of an array is
    passed to the operations that need it ([.T] on an array with no rows).
    On arrays of equal shape numpy's elementwise operators are [zip_with];
    the script builds both grids from the same pair
    [(n_series, n_parallel)], and the theorems assume that shape.

    Numbers.  The loop is written once over an arithmetic interface
    ([Arith]), so that what does not depend on the arithmetic is proved for
    every carrier.  Two carriers are given.  [float] is binary64, the
    arithmetic of the program: its operations round, overflow and produce
    NaN as numpy's do, and what the file says about a value that the
    program returns is said about a [float].  [num] is exact rational
    arithmetic extended with the IEEE-754 special values that a division by
    zero produces; it has no rounding, no overflow and an unsigned zero, and
    carries the algebraic laws, which hold of the formulas and of the
    program's values only up to rounding. *)

From Stdlib Require Import PrimFloat SpecFloat FloatOps.
From Stdlib Require Uint63.
From Stdlib Require Import ZArith QArith Qabs Qcanon Field.
From stdpp Require Import base list.

(** Decimal literals of binary64 numbers are read as Python reads them, to
    the nearest binary64 number. *)
Set Warnings "-inexact-float".

(** ** Python exceptions and the error monad *)

Inductive exn := IndexError | ValueError.

Inductive result (A : Type) :=
  | Ok (a : A)
  | Raise (e : exn).
Arguments Ok {A} a.
Arguments Raise {A} e.

#[export] Instance result_ret : MRet result := fun A a => Ok a.
#[export] Instance result_bind : MBind result := fun A B f r =>
  match r with
  | Ok a => f a
  | Raise e => Raise e
  end.

(** [xs[k]] for a non-negative index. *)
Definition index {A} (xs : list A) (k : nat) : result A :=
  match xs !! k with
  | Some x => Ok x
  | None => Raise IndexError
  end.

(** [xs[k] = x], an in-place write of one entry along the first axis. *)
Definition setitem {A} (xs : list A) (k : nat) (x : A) : result (list A) :=
  if decide (k < length xs) then Ok (<[k:=x]> xs) else Raise IndexError.

(** [range(a, b)] *)
Definition range (a b : nat) : list nat := seq a (b - a).

(** [for k in ks: body], threading the store and stopping at the first
    exception. *)
Fixpoint for_each {S} (body : nat -> S -> result S) (ks : list nat) (st : S)
  : result S :=
  match ks with
  | [] => Ok st
  | k :: ks' => st' ← body k st; for_each body ks' st'
  end.

(** ** The arithmetic interface *)

Class Arith (F : Type) := {
  fzero : F;
  fone : F;
  fadd : F -> F -> F;
  fsub : F -> F -> F;
  fmul : F -> F -> F;
  fdiv : F -> F -> F;
  of_nat : nat -> F
}.

(** ** The variables of the script that the pack calculation touches *)

Record store (F : Type) := Store {
  zi : list (list F);
  ocv_cells : list (list F);
  r0_cells : list (list F);
  i_pack : list F;
  i_cells : list (list (list F));
  v_modules : option (list F)   (* unbound before the first iteration *)
}.
Arguments Store {F}.
Arguments zi {F}.
Arguments ocv_cells {F}.
Arguments r0_cells {F}.
Arguments i_pack {F}.
Arguments i_cells {F}.
Arguments v_modules {F}.

(** A two-dimensional array that may have no rows, such as the table of
    fitted parameters: the number of columns is kept beside the rows. *)
Record table (F : Type) := Table {
  tab_cols : nat;
  tab_rows : list (list F)
}.
Arguments Table {F}.
Arguments tab_cols {F}.
Arguments tab_rows {F}.

Definition table_wf {F} (a : table F) : Prop :=
  Forall (fun row => length row = tab_cols a) (tab_rows a).

(** An array of shape [(rows, cols)]. *)
Definition shape2 {A} (rows cols : nat) (g : list (list A)) : Prop :=
  length g = rows /\ Forall (fun row => length row = cols) g.

Section Pack.
Context {F : Type} `{Arith F}.

(** *** numpy operations used by the script *)

(** [np.zeros((rows, cols))], [np.ones((rows, cols))] *)
Definition zeros2 (rows cols : nat) : list (list F) :=
  replicate rows (replicate cols fzero).
Definition ones2 (rows cols : nat) : list (list F) :=
  replicate rows (replicate cols fone).
(** [np.zeros((n, rows, cols))] *)
Definition zeros3 (n rows cols : nat) : list (list (list F)) :=
  replicate n (zeros2 rows cols).

(** [np.sum] of a one-dimensional array. *)
Definition np_sum (xs : list F) : F := foldl fadd fzero xs.
(** [np.sum(a, axis=1)] *)
Definition sum_axis1 (a : list (list F)) : list F := map np_sum a.
(** [a.mean()] of a one-dimensional array. *)
Definition np_mean (xs : list F) : F := fdiv (np_sum xs) (of_nat (length xs)).

(** [a / b] on two-dimensional arrays of one shape. *)
Definition div2 (a b : list (list F)) : list (list F) :=
  zip_with (zip_with fdiv) a b.
(** [1 / b] *)
Definition recip2 (b : list (list F)) : list (list F) :=
  map (map (fdiv fone)) b.
(** [x * b] for a scalar [x] *)
Definition scale2 (x : F) (b : list (list F)) : list (list F) :=
  map (map (fmul x)) b.
(** [v - x] for a vector [v] and a scalar [x] *)
Definition sub_scalar (v : list F) (x : F) : list F :=
  map (fun y => fsub y x) v.
(** [a - v]: the vector [v] is broadcast along the rows of [a]. *)
Definition sub_rows (a : list (list F)) (v : list F) : list (list F) :=
  map (fun row => zip_with fsub row v) a.

(** [a.T] for [a] of shape [(rows, cols)]; the result has [cols] rows. *)
Definition transpose {A} (cols : nat) (a : list (list A)) : list (list A) :=
  foldr (zip_with cons) (replicate cols []) a.

(** [a.transpose(1, 2, 0)] for [a] of shape [(n, rows, cols)]:
    the result has shape [(rows, cols, n)]. *)
Definition transpose120 {A} (rows cols : nat) (a : list (list (list A)))
  : list (list (list A)) :=
  foldr (zip_with (zip_with cons)) (replicate rows (replicate cols [])) a.

(** [a.size] of a two-dimensional array. *)
Definition size2 {A} (a : list (list A)) : nat := sum_list (length <$> a).

(** Row [r] of a buffer read as rows of [cols] entries. *)
Definition chunk {A} (cols : nat) (flat : list A) (r : nat) : list A :=
  take cols (drop (r * cols) flat).

(** [reshape(rows, cols)] of the C-order contents of an array. *)
Definition reshape2 {A} (rows cols : nat) (flat : list A)
  : result (list (list A)) :=
  if decide (length flat = rows * cols)
  then Ok (map (chunk cols flat) (seq 0 rows))
  else Raise ValueError.

(** *** The solver loop (lines 77-81) *)

Section Topology.
Variables n_series n_parallel : nat.

(** Line 80, the right-hand side. *)
Definition module_voltages (ocv r0 : list (list F)) (ik : F) : list F :=
  zip_with fdiv
    (sub_scalar (sum_axis1 (div2 ocv r0)) ik)
    (sum_axis1 (recip2 r0)).

(** Line 81, the right-hand side. *)
Definition cell_currents (ocv r0 : list (list F)) (v : list F)
  : list (list F) :=
  div2 (transpose n_series (sub_rows (transpose n_parallel ocv) v)) r0.

(** One iteration of the loop. *)
Definition loop_body (k : nat) (st : store F) : result (store F) :=
  ik ← index (i_pack st) k;
  let v := module_voltages (ocv_cells st) (r0_cells st) ik in
  cells ← setitem (i_cells st) k (cell_currents (ocv_cells st) (r0_cells st) v);
  Ok {| zi := zi st; ocv_cells := ocv_cells st; r0_cells := r0_cells st;
        i_pack := i_pack st; i_cells := cells; v_modules := Some v |}.

(** Line 77: [i_cells] is bound to a fresh array of zeros. *)
Definition alloc_cells (st : store F) : store F :=
  {| zi := zi st; ocv_cells := ocv_cells st; r0_cells := r0_cells st;
     i_pack := i_pack st;
     i_cells := zeros3 (length (i_pack st)) n_series n_parallel;
     v_modules := v_modules st |}.

(** Lines 77-81, run on a store in which the static grids and [i_pack]
    are bound. *)
Definition solver_loop (st : store F) : result (store F) :=
  for_each loop_body (range 1 (length (i_pack st))) (alloc_cells st).

(** The solver as a function of its inputs. *)
Definition solver (ocv r0 : list (list F)) (ipack : list F)
  : result (list (list (list F))) :=
  st ← solver_loop {| zi := []; ocv_cells := ocv; r0_cells := r0;
                      i_pack := ipack; i_cells := []; v_modules := None |};
  Ok (i_cells st).

(** The grid that an iteration writes, as a function of what it reads. *)
Definition solved_grid (ocv r0 : list (list F)) (ik : F) : list (list F) :=
  cell_currents ocv r0 (module_voltages ocv r0 ik).

(** Line 83: the transposed view is read in C order, which is the
    concatenation of its rows, and cut into [i_cells[0].size] rows. *)
Definition flatten_cells (ipack : list F) (cells : list (list (list F)))
  : result (list (list F)) :=
  g0 ← index cells 0;
  reshape2 (size2 g0) (length ipack)
    (mjoin (mjoin (transpose120 n_series n_parallel cells))).

(** *** Lines 71-83 of the script

    [rctau] is the table returned by [ecm.rctau_ttc] and [current] is
    [ecm.current]. *)

(** [a[:, j]]: the index is checked against the number of columns, also
    when the table has no rows. *)
Definition column (j : nat) (a : table F) : result (list F) :=
  if decide (j < tab_cols a)
  then mapM (M := result) (fun row => index row j) (tab_rows a)
  else Raise IndexError.

(** Line 72. *)
Definition resistance_grid (rctau : table F) : result (list (list F)) :=
  col ← column 2 rctau;
  Ok (scale2 (np_mean col) (ones2 n_series n_parallel)).

(** [np.interp(x, xp, fp)] on a grid [x].  numpy raises ValueError when
    there are no sample points and when [xp] and [fp] differ in length;
    otherwise it interpolates at every entry, and [np_interp xp fp] stands
    for what it does at one point. *)
Variable np_interp : list F -> list F -> F -> F.

Definition interp_grid (x : list (list F)) (xp fp : list F)
  : result (list (list F)) :=
  match xp with
  | [] => Raise ValueError
  | _ :: _ =>
      if decide (length fp = length xp)
      then Ok (map (map (np_interp xp fp)) x)
      else Raise ValueError
  end.

Definition pack_calculation (zi0 : list (list F)) (z_pts v_pts : list F)
    (rctau : table F) (current : list F)
  : result (store F * list (list F)) :=
  ocv ← interp_grid zi0 (reverse z_pts) (reverse v_pts);
  r0 ← resistance_grid rctau;
  let ipack := map (fun x => fmul x (of_nat 3)) current in
  st ← solver_loop {| zi := zi0; ocv_cells := ocv; r0_cells := r0;
                      i_pack := ipack; i_cells := []; v_modules := None |};
  cells2 ← flatten_cells ipack (i_cells st);
  Ok (st, cells2).
End Topology.

(** *** The formulas of the specification, for one module

    [orow] and [rrow] are the rows of [ocv_cells] and [r0_cells] of the
    module. *)
Definition sum_ocv_over_r0 (orow rrow : list F) : F :=
  np_sum (zip_with fdiv orow rrow).
Definition sum_recip_r0 (rrow : list F) : F :=
  np_sum (map (fdiv fone) rrow).
Definition module_voltage (orow rrow : list F) (ik : F) : F :=
  fdiv (fsub (sum_ocv_over_r0 orow rrow) ik) (sum_recip_r0 rrow).
Definition cell_current (o r v : F) : F := fdiv (fsub o v) r.

(** What the loop leaves alone. *)
Definition same_inputs (st st' : store F) : Prop :=
  zi st' = zi st /\ ocv_cells st' = ocv_cells st /\
  r0_cells st' = r0_cells st /\ i_pack st' = i_pack st.
End Pack.

(** An array of shape [(n, rows, cols)]. *)
Definition shape3 {A} (n rows cols : nat) (c : list (list (list A))) : Prop :=
  length c = n /\ Forall (shape2 rows cols) c.

(** ** Exact arithmetic with the IEEE-754 special values

    [Fin q] is the real number [q]; [PInf], [NInf] and [NaN] are what
    binary64 returns where the real result is undefined.  Zero is
    unsigned: [x / 0] has the sign of [x]. *)

Inductive num := Fin (q : Qc) | PInf | NInf | NaN.

Definition Qc_is_zero (q : Qc) : bool := Qc_eq_bool q 0.
Definition Qc_is_pos (q : Qc) : bool :=
  match (0 ?= q)%Qc with Lt => true | _ => false end.

Definition inf_of (positive : bool) : num := if positive then PInf else NInf.

Definition num_neg (x : num) : num :=
  match x with
  | Fin q => Fin (- q)
  | PInf => NInf
  | NInf => PInf
  | NaN => NaN
  end.

Definition num_add (x y : num) : num :=
  match x, y with
  | Fin a, Fin b => Fin (a + b)
  | NaN, _ | _, NaN => NaN
  | PInf, NInf | NInf, PInf => NaN
  | PInf, _ | _, PInf => PInf
  | NInf, _ | _, NInf => NInf
  end.

Definition num_sub (x y : num) : num := num_add x (num_neg y).

Definition num_mul (x y : num) : num :=
  match x, y with
  | Fin a, Fin b => Fin (a * b)
  | NaN, _ | _, NaN => NaN
  | Fin a, PInf | PInf, Fin a =>
      if Qc_is_zero a then NaN else inf_of (Qc_is_pos a)
  | Fin a, NInf | NInf, Fin a =>
      if Qc_is_zero a then NaN else inf_of (negb (Qc_is_pos a))
  | PInf, PInf | NInf, NInf => PInf
  | PInf, NInf | NInf, PInf => NInf
  end.

Definition num_div (x y : num) : num :=
  match x, y with
  | Fin a, Fin b =>
      if Qc_is_zero b
      then (if Qc_is_zero a then NaN else inf_of (Qc_is_pos a))
      else Fin (a / b)
  | NaN, _ | _, NaN => NaN
  | Fin _, (PInf | NInf) => Fin 0
  | PInf, Fin b => inf_of (Qc_is_zero b || Qc_is_pos b)
  | NInf, Fin b => inf_of (negb (Qc_is_zero b || Qc_is_pos b))
  | (PInf | NInf), (PInf | NInf) => NaN
  end.

Definition num_of_Z (z : Z) : num := Fin (Q2Qc (inject_Z z)).

Arguments num_neg : simpl never.
Arguments num_add : simpl never.
Arguments num_sub : simpl never.
Arguments num_mul : simpl never.
Arguments num_div : simpl never.

#[export] Instance num_arith : Arith num := {
  fzero := Fin 0;
  fone := Fin 1;
  fadd := num_add;
  fsub := num_sub;
  fmul := num_mul;
  fdiv := num_div;
  of_nat n := num_of_Z (Z.of_nat n)
}.

Definition is_finite (x : num) : bool :=
  match x with Fin _ => true | _ => false end.

(** Decimal literals of the examples: [dec n d] is [n / d]. *)
Definition dec (n : Z) (d : positive) : num := Fin (Q2Qc (n # d)).

(** ** Reading arrays *)

Definition at2 {A} (g : list (list A)) (m p : nat) : option A :=
  g !! m ≫= fun row => row !! p.
Definition at3 {A} (c : list (list (list A))) (t m p : nat) : option A :=
  c !! t ≫= fun g => at2 g m p.

(** ** Sums of rationals and the inputs of the examples *)

Definition Qc_sum (qs : list Qc) : Qc := foldr Qcplus 0%Qc qs.
Definition Qc_of_nat (n : nat) : Qc := Q2Qc (inject_Z (Z.of_nat n)).
Definition Qc_recip (r : Qc) : Qc := (1 / r)%Qc.
Definition Qc_mean (qs : list Qc) : Qc := (Qc_sum qs / Qc_of_nat (length qs))%Qc.

(** The two sums of the module-voltage formula, for finite rows. *)
Definition sumA (os rs : list Qc) : Qc := Qc_sum (zip_with Qcdiv os rs).
Definition sumB (rs : list Qc) : Qc := Qc_sum (Qc_recip <$> rs).

(** The pack of the example scenario: two modules of three cells, every
    cell at 3.7 V and 0.01 ohm, and a constant pack current of 30 A. *)
Definition ocv_3v7 : list (list num) := replicate 2 (replicate 3 (dec 37 10)).
Definition r0_10mohm : list (list num) := replicate 2 (replicate 3 (dec 1 100)).
Definition i_pack_30A (n : nat) : list num := replicate n (dec 30 1).

(** Grids with a resistance that is not positive. *)
Definition r0_negative : list (list num) :=
  replicate 2 (replicate 3 (dec (-1) 100)).
Definition r0_one_short : list (list num) :=
  [[dec 0 1; dec 1 100; dec 1 100]; replicate 3 (dec 1 100)].

(** Inputs for one run of lines 71-83: initial states of charge, sample
    points of the SOC-OCV curve in the order of falling state of charge,
    and a table of fitted parameters whose third column holds the series
    resistances. *)
Definition zi_example : list (list num) :=
  [[dec 96 100; dec 97 100; dec 99 100]; [dec 95 100; dec 98 100; dec 1 1]].
Definition z_pts_example : list num := [dec 1 1; dec 9 10].
Definition v_pts_example : list num := [dec 42 10; dec 40 10].
Definition rctau_example : table num :=
  Table 3 [[dec 1 1000; dec 2 1; dec 1 100]; [dec 2 1000; dec 50 1; dec 3 100]].

(** [np.interp] at one point in exact arithmetic, for finite sample points
    [xp] in rising order: the first value below the first point, the last
    value from the last point on, and the chord between two neighbours. *)
Definition Qc_ltb (x y : Qc) : bool :=
  match (x ?= y)%Qc with Lt => true | _ => false end.

Fixpoint interp_between (x x0 f0 : Qc) (pts : list (Qc * Qc)) : Qc :=
  match pts with
  | [] => f0
  | (x1, f1) :: pts' =>
      if Qc_ltb x x1
      then ((f1 - f0) / (x1 - x0) * (x - x0) + f0)%Qc
      else interp_between x x1 f1 pts'
  end.

Definition finite_value (x : num) : option Qc :=
  match x with Fin q => Some q | _ => None end.

Definition interp_linear (xp fp : list num) (x : num) : num :=
  match mapM finite_value xp, mapM finite_value fp, x with
  | Some xs, Some fs, Fin q =>
      match zip xs fs with
      | [] => NaN
      | (x0, f0) :: pts =>
          Fin (if Qc_ltb q x0 then f0 else interp_between q x0 f0 pts)
      end
  | _, _, _ => NaN
  end.

(** ** Binary64

    The arithmetic of the program.  numpy adds fewer than eight entries
    from left to right, as [np_sum] does; more entries it adds in blocks,
    which gives the same sum in exact arithmetic and may round differently
    in binary64.  The sign of a sum that is zero is not modelled.  The
    rows and columns of the binary64 examples have at most three
    entries. *)

Definition b64_of_Z (z : Z) : float :=
  if (z <? 0)%Z
  then PrimFloat.opp (PrimFloat.of_uint63 (Uint63.of_Z (- z)))
  else PrimFloat.of_uint63 (Uint63.of_Z z).

#[export] Instance b64_arith : Arith float := {
  fzero := 0%float;
  fone := 1%float;
  fadd := PrimFloat.add;
  fsub := PrimFloat.sub;
  fmul := PrimFloat.mul;
  fdiv := PrimFloat.div;
  of_nat n := b64_of_Z (Z.of_nat n)
}.

(** The rational number that a finite binary64 number is. *)
Definition Q_of_b64 (x : float) : option Q :=
  match Prim2SF x with
  | S754_zero _ => Some 0%Q
  | S754_finite s m e =>
      Some ((if s then -1 else 1) * inject_Z (Zpos m) * 2 ^ e)%Q
  | _ => None
  end.

(** [|x - ref| <= tol * |ref|], decided on the rational values; [false]
    when one of the two is not finite. *)
Definition rel_error_within (tol : Q) (x ref : float) : bool :=
  match Q_of_b64 x, Q_of_b64 ref with
  | Some qx, Some qr => Qle_bool (Qabs (qx - qr)) (tol * Qabs qr)
  | _, _ => false
  end.

(** [|x - ref| > tol * |ref|], for two finite numbers. *)
Definition rel_error_exceeds (tol : Q) (x ref : float) : bool :=
  match Q_of_b64 x, Q_of_b64 ref with
  | Some qx, Some qr => negb (Qle_bool (Qabs (qx - qr)) (tol * Qabs qr))
  | _, _ => false
  end.

(** The pack of the example scenario in binary64, with the literals as
    Python reads them. *)
Definition ocv_3v7_b64 : list (list float) := replicate 2 (replicate 3 3.7%float).
Definition r0_10mohm_b64 : list (list float) :=
  replicate 2 (replicate 3 0.01%float).
Definition i_pack_b64 (n : nat) (i : float) : list float := replicate n i.

(** One module of three cells at 0.96, 0.97 and 0.99 V, a table whose
    third column gives 0.02 ohm, and a pack current that steps up. *)
Definition ocv_spread_b64 : list (list float) := [[0.96; 0.97; 0.99]%float].
Definition rctau_b64 : table float := Table 3 [[0.001; 2; 0.02]%float].
Definition i_pack_step_b64 : list float := [30; 30; 60]%float.

(** A table whose fitted series resistances are zero. *)
Definition rctau_zero : table num :=
  Table 3 [[dec 1 1000; dec 2 1; dec 0 1]; [dec 2 1000; dec 50 1; dec 0 1]].
Definition ocv_spread : list (list num) :=
  [[dec 96 100; dec 97 100; dec 99 100]].

(** Closed equations between numbers: evaluate, then compare the canonical
    rationals. *)
Ltac num_compute :=
  vm_compute;
  repeat match goal with
         | |- Some _ = Some _ => apply (f_equal Some)
         | |- Fin _ = Fin _ => apply (f_equal Fin)
         end;
  apply Qc_is_canon; reflexivity.

(** A pack whose first module holds three different cells, and a module
    that holds the same three cells in another order. *)
Definition ocv_mixed : list (list num) :=
  [[dec 37 10; dec 36 10; dec 38 10]; replicate 3 (dec 37 10)].
Definition r0_mixed : list (list num) :=
  [[dec 1 100; dec 2 100; dec 2 100]; replicate 3 (dec 1 100)].
Definition ocv_reordered : list (list num) :=
  [[dec 38 10; dec 37 10; dec 36 10]].
Definition r0_reordered : list (list num) :=
  [[dec 2 100; dec 1 100; dec 2 100]].
Definition i_pack_step : list num := [dec 30 1; dec 30 1; dec 15 1].

(** ** The loop read as a map

    What lines 77-81 leave in [i_cells] and in [v_modules], written without
    the loop: the zeros of timestep 0 followed by one solved grid per later
    entry of [i_pack], and the voltages of the last timestep. *)

Section ClosedForm.
Context {F : Type} `{Arith F}.
Variables n_series n_parallel : nat.

Definition solved_cells (ocv r0 : list (list F)) (ipack : list F)
  : list (list (list F)) :=
  match ipack with
  | [] => []
  | _ :: rest =>
      zeros2 n_series n_parallel
        :: map (solved_grid n_series n_parallel ocv r0) rest
  end.

Definition last_voltages (ocv r0 : list (list F)) (ipack : list F)
    (old : option (list F)) : option (list F) :=
  match ipack with
  | _ :: _ :: _ => module_voltages ocv r0 <$> last ipack
  | _ => old
  end.

(** The store after the loop. *)
Definition solved_store (st : store F) : store F :=
  {| zi := zi st; ocv_cells := ocv_cells st; r0_cells := r0_cells st;
     i_pack := i_pack st;
     i_cells := solved_cells (ocv_cells st) (r0_cells st) (i_pack st);
     v_modules := last_voltages (ocv_cells st) (r0_cells st) (i_pack st)
                    (v_modules st) |}.
End ClosedForm.

(** ** The arrays of the per-cell loop (lines 85-87) *)

Section CellArrays.
Context {F : Type} `{Arith F}.
Variables n_series n_parallel : nat.

Definition n_cells : nat := n_parallel * n_series.
Definition v_cells (ipack : list F) : list (list F) :=
  zeros2 n_cells (length ipack).
Definition temp_cells (ipack : list F) : list (list F) :=
  zeros2 n_cells (length ipack).
End CellArrays.

(** The share of the module's conductance that a cell of resistance [r]
    holds. *)
Definition conductance_share (rs : list Qc) (r : Qc) : Qc :=
  (Qc_recip r / sumB rs)%Qc.

(** * Properties *)

(** ** Shapes and transposition *)

Section ArrayFacts.
Context {A : Type}.
Implicit Types (a : list (list A)) (row : list A).

Lemma shape2_cons rows cols row a :
  shape2 (S rows) cols (row :: a) <-> length row = cols /\ shape2 rows cols a.
Proof.
  unfold shape2. rewrite Forall_cons. simpl.
  split; [intros [Hl [Hr Ha]] | intros [Hr [Hl Ha]]]; repeat split; auto with lia.
Qed.

Lemma shape2_lookup rows cols a m row :
  shape2 rows cols a -> a !! m = Some row -> length row = cols.
Proof.
  intros [_ Hall] Hm. rewrite Forall_lookup in Hall. exact (Hall m row Hm).
Qed.

Lemma shape2_length rows cols a : shape2 rows cols a -> length a = rows.
Proof. by intros [? _]. Qed.

Lemma shape2_replicate rows cols (x : A) :
  shape2 rows cols (replicate rows (replicate cols x)).
Proof.
  split; [apply length_replicate |].
  apply Forall_replicate, length_replicate.
Qed.

Lemma transpose_cons cols row a :
  transpose cols (row :: a) = zip_with cons row (transpose cols a).
Proof. reflexivity. Qed.

Lemma transpose_shape rows cols a :
  shape2 rows cols a -> shape2 cols rows (transpose cols a).
Proof.
  revert rows. induction a as [|row a IH]; intros rows Hs.
  - destruct Hs as [<- _]. simpl. split; [apply length_replicate |].
    by apply Forall_replicate.
  - destruct rows as [|rows]; [by destruct Hs |].
    apply shape2_cons in Hs as [Hrow Hs].
    destruct (IH _ Hs) as [Hlen Hall].
    rewrite transpose_cons. split.
    + rewrite length_zip_with. lia.
    + apply Forall_lookup. intros p col Hp.
      apply lookup_zip_with_Some in Hp as (x & c & -> & _ & Hc).
      simpl. f_equal. rewrite Forall_lookup in Hall. eauto.
Qed.

Lemma transpose_at2 rows cols a p m :
  shape2 rows cols a -> p < cols ->
  at2 (transpose cols a) p m = at2 a m p.
Proof.
  revert rows m. induction a as [|row a IH]; intros rows m Hs Hp.
  - unfold at2. simpl. rewrite lookup_replicate_2 by done. by destruct m.
  - destruct rows as [|rows]; [by destruct Hs |].
    apply shape2_cons in Hs as [Hrow Hs].
    specialize (IH rows).
    destruct (lookup_lt_is_Some_2 row p) as [x Hx]; [lia |].
    destruct (lookup_lt_is_Some_2 (transpose cols a) p) as [c Hc].
    { by rewrite (shape2_length _ _ _ (transpose_shape _ _ _ Hs)). }
    unfold at2 in *. rewrite transpose_cons, lookup_zip_with, Hx, Hc. simpl.
    destruct m as [|m]; simpl; [done |].
    rewrite <- (IH m Hs Hp), Hc. done.
Qed.
End ArrayFacts.

Section SolverFacts.
Context {F : Type} `{Arith F}.
Implicit Types (ocv : list (list F)) (v : list F).

Lemma module_voltages_lookup ocv (r0 : list (list F)) ik m orow rrow :
  ocv !! m = Some orow -> r0 !! m = Some rrow ->
  module_voltages ocv r0 ik !! m = Some (module_voltage orow rrow ik).
Proof.
  intros Ho Hr. unfold module_voltages, sub_scalar, sum_axis1, recip2, div2.
  rewrite lookup_zip_with, !list_lookup_fmap, lookup_zip_with, Ho, Hr.
  reflexivity.
Qed.

Lemma module_voltages_length rows cols ocv (r0 : list (list F)) ik :
  shape2 rows cols ocv -> shape2 rows cols r0 ->
  length (module_voltages ocv r0 ik) = rows.
Proof.
  intros [Ho _] [Hr _]. unfold module_voltages, sub_scalar, sum_axis1, recip2, div2.
  rewrite length_zip_with, !length_fmap, length_zip_with. lia.
Qed.

Lemma sub_rows_shape rows cols (a : list (list F)) v :
  shape2 rows cols a -> length v = cols -> shape2 rows cols (sub_rows a v).
Proof.
  intros [Hl Hall] Hv. unfold sub_rows. split; [by rewrite length_fmap |].
  apply Forall_fmap. eapply Forall_impl; [exact Hall |].
  intros row Hrow. simpl in *. rewrite length_zip_with, Hrow, Hv. apply Nat.min_id.
Qed.

Lemma sub_rows_at2 (a : list (list F)) v p m :
  at2 (sub_rows a v) p m =
  x ← at2 a p m; y ← v !! m; Some (fsub x y).
Proof.
  unfold at2, sub_rows. rewrite list_lookup_fmap.
  destruct (a !! p) as [row|]; simpl; [|done].
  by rewrite lookup_zip_with.
Qed.

Lemma div2_at2 (a b : list (list F)) m p :
  at2 (div2 a b) m p = x ← at2 a m p; y ← at2 b m p; Some (fdiv x y).
Proof.
  unfold at2, div2. rewrite lookup_zip_with.
  destruct (a !! m) as [ra|]; simpl; [|done].
  destruct (b !! m) as [rb|]; simpl.
  - by rewrite lookup_zip_with.
  - by destruct (ra !! p).
Qed.

(** Line 81 entry by entry: the two transpositions put the voltage of
    module [m] under every cell of row [m]. *)
Lemma cell_currents_at2 rows cols ocv (r0 : list (list F)) v m p o r vm :
  shape2 rows cols ocv -> length v = rows ->
  at2 ocv m p = Some o -> at2 r0 m p = Some r -> v !! m = Some vm ->
  at2 (cell_currents rows cols ocv r0 v) m p = Some (fdiv (fsub o vm) r).
Proof.
  intros Hs Hv Ho Hr Hvm. unfold cell_currents.
  assert (p < cols) as Hp.
  { unfold at2 in Ho. destruct (ocv !! m) as [row|] eqn:Hm; [|done].
    rewrite <- (shape2_lookup _ _ _ _ _ Hs Hm). by eapply lookup_lt_Some. }
  assert (m < rows) as Hm by (rewrite <- Hv; by eapply lookup_lt_Some).
  rewrite div2_at2, (transpose_at2 cols rows), sub_rows_at2,
    (transpose_at2 rows cols), Ho, Hvm, Hr; try done.
  apply sub_rows_shape; [by apply transpose_shape | done].
Qed.
End SolverFacts.

Section LoopFacts.
Context {F : Type} `{Arith F}.
Variables n_series n_parallel : nat.
Implicit Types (st : store F).

Lemma same_inputs_refl st : same_inputs st st.
Proof. by repeat split. Qed.

Lemma same_inputs_trans st1 st2 st3 :
  same_inputs st1 st2 -> same_inputs st2 st3 -> same_inputs st1 st3.
Proof.
  unfold same_inputs. intros (-> & -> & -> & ->) (-> & -> & -> & ->).
  by repeat split.
Qed.

Lemma loop_body_ok k st ik :
  i_pack st !! k = Some ik -> k < length (i_cells st) ->
  loop_body n_series n_parallel k st =
  Ok {| zi := zi st; ocv_cells := ocv_cells st; r0_cells := r0_cells st;
        i_pack := i_pack st;
        i_cells := <[k := solved_grid n_series n_parallel (ocv_cells st) (r0_cells st) ik]> (i_cells st);
        v_modules := Some (module_voltages (ocv_cells st) (r0_cells st) ik) |}.
Proof.
  intros Hk Hlt. unfold loop_body, index, setitem. rewrite Hk. simpl.
  by rewrite decide_True.
Qed.

(** Iterations [a], ..., [a + n - 1]: none raises, each writes its own
    grid and nothing else. *)
Lemma loop_run n : forall a st,
  n = 0 \/ a + n <= length (i_pack st) ->
  length (i_cells st) = length (i_pack st) ->
  exists st',
    for_each (loop_body n_series n_parallel) (seq a n) st = Ok st' /\
    same_inputs st st' /\
    length (i_cells st') = length (i_cells st) /\
    (forall k ik, a <= k < a + n -> i_pack st !! k = Some ik ->
       i_cells st' !! k = Some (solved_grid n_series n_parallel (ocv_cells st) (r0_cells st) ik)) /\
    (forall k, k < a \/ a + n <= k -> i_cells st' !! k = i_cells st !! k).
Proof.
  induction n as [|n IH]; intros a st Hle Hlen.
  - exists st. simpl. split; [done |]. split; [apply same_inputs_refl |].
    split; [done |]. split; [intros; lia | done].
  - destruct Hle as [|Hle]; [done |].
    destruct (lookup_lt_is_Some_2 (i_pack st) a) as [ia Hia]; [lia |].
    simpl. rewrite (loop_body_ok a st ia) by (done || lia). simpl.
    set (st1 := Store _ _ _ _ _ _).
    destruct (IH (S a) st1) as (st' & Hrun & Hsame & Hl & Hin & Hout).
    { simpl. lia. }
    { simpl. by rewrite length_insert. }
    exists st'. split; [exact Hrun |]. split.
    { eapply same_inputs_trans; [|exact Hsame]. by repeat split. }
    split; [by rewrite Hl; simpl; rewrite length_insert |].
    split.
    + intros k ik Hk Hik. destruct (decide (k = a)) as [->|Hne].
      * rewrite Hout by lia. simpl. rewrite list_lookup_insert_eq by lia.
        congruence.
      * apply (Hin k ik); [lia | exact Hik].
    + intros k Hk. rewrite Hout by lia. simpl.
      apply list_lookup_insert_ne. lia.
Qed.

(** The whole loop, started by line 77. *)
Lemma solver_loop_run st :
  exists st',
    solver_loop n_series n_parallel st = Ok st' /\
    same_inputs st st' /\
    length (i_cells st') = length (i_pack st) /\
    (forall k ik, 1 <= k -> i_pack st !! k = Some ik ->
       i_cells st' !! k = Some (solved_grid n_series n_parallel (ocv_cells st) (r0_cells st) ik)) /\
    (0 < length (i_pack st) ->
       i_cells st' !! 0 = Some (zeros2 n_series n_parallel)).
Proof.
  unfold solver_loop, range.
  destruct (loop_run (length (i_pack st) - 1) 1 (alloc_cells n_series n_parallel st))
    as (st' & Hrun & Hsame & Hl & Hin & Hout).
  { simpl. lia. }
  { simpl. unfold zeros3. apply length_replicate. }
  exists st'. split; [exact Hrun |]. split; [exact Hsame |].
  split; [rewrite Hl; simpl; apply length_replicate |]. split.
  - intros k ik Hk Hik. apply (Hin k ik); [|exact Hik].
    apply lookup_lt_Some in Hik. simpl in *. lia.
  - intros HT. rewrite Hout by lia. simpl. unfold zeros3.
    by apply lookup_replicate_2.
Qed.
End LoopFacts.

Section GridFacts.
Context {F : Type} `{Arith F}.
Variables n_series n_parallel : nat.

Lemma div2_shape rows cols (a b : list (list F)) :
  shape2 rows cols a -> shape2 rows cols b -> shape2 rows cols (div2 a b).
Proof.
  intros [Hla Ha] [Hlb Hb]. unfold div2. split.
  - rewrite length_zip_with, Hla, Hlb. apply Nat.min_id.
  - apply Forall_lookup. intros m row Hm.
    apply lookup_zip_with_Some in Hm as (ra & rb & -> & Hra & Hrb).
    rewrite Forall_lookup in Ha, Hb.
    rewrite length_zip_with, (Ha _ _ Hra), (Hb _ _ Hrb). apply Nat.min_id.
Qed.

Lemma cell_currents_shape ocv (r0 : list (list F)) v :
  shape2 n_series n_parallel ocv -> shape2 n_series n_parallel r0 ->
  length v = n_series ->
  shape2 n_series n_parallel (cell_currents n_series n_parallel ocv r0 v).
Proof.
  intros Ho Hr Hv. unfold cell_currents.
  apply div2_shape; [|done].
  apply transpose_shape, sub_rows_shape; [by apply transpose_shape | done].
Qed.

Lemma solved_grid_shape ocv (r0 : list (list F)) ik :
  shape2 n_series n_parallel ocv -> shape2 n_series n_parallel r0 ->
  shape2 n_series n_parallel (solved_grid n_series n_parallel ocv r0 ik).
Proof.
  intros Ho Hr. apply cell_currents_shape; try done.
  by eapply module_voltages_length.
Qed.

(** Row [m] of the grid written at one timestep. *)
Lemma solved_grid_row ocv (r0 : list (list F)) ik m orow rrow :
  shape2 n_series n_parallel ocv -> shape2 n_series n_parallel r0 ->
  ocv !! m = Some orow -> r0 !! m = Some rrow ->
  solved_grid n_series n_parallel ocv r0 ik !! m =
  Some (zip_with (fun o r => cell_current o r (module_voltage orow rrow ik))
          orow rrow).
Proof.
  intros Ho Hr Hom Hrm.
  pose proof (solved_grid_shape ocv r0 ik Ho Hr) as Hs.
  pose proof (module_voltages_length _ _ _ _ ik Ho Hr) as Hv.
  pose proof (module_voltages_lookup _ _ ik _ _ _ Hom Hrm) as Hvm.
  destruct (lookup_lt_is_Some_2 (solved_grid n_series n_parallel ocv r0 ik) m)
    as [row Hrow].
  { rewrite (shape2_length _ _ _ Hs), <- (shape2_length _ _ _ Ho).
    by eapply lookup_lt_Some. }
  rewrite Hrow. f_equal. apply list_eq. intros p.
  rewrite lookup_zip_with.
  destruct (orow !! p) as [o|] eqn:Hop; simpl.
  - destruct (rrow !! p) as [r|] eqn:Hrp; simpl.
    + pose proof (cell_currents_at2 n_series n_parallel ocv r0
                    (module_voltages ocv r0 ik) m p o r
                    (module_voltage orow rrow ik) Ho Hv) as Hat.
      unfold at2 in Hat. rewrite Hom, Hrm in Hat. simpl in Hat.
      specialize (Hat Hop Hrp Hvm).
      unfold solved_grid in Hrow. rewrite Hrow in Hat. exact Hat.
    + apply lookup_ge_None. apply lookup_ge_None in Hrp.
      rewrite (shape2_lookup _ _ _ _ _ Hs Hrow).
      by rewrite <- (shape2_lookup _ _ _ _ _ Hr Hrm).
  - apply lookup_ge_None. apply lookup_ge_None in Hop.
    rewrite (shape2_lookup _ _ _ _ _ Hs Hrow).
    by rewrite <- (shape2_lookup _ _ _ _ _ Ho Hom).
Qed.

Lemma solver_run ocv (r0 : list (list F)) ipack :
  exists cells,
    solver n_series n_parallel ocv r0 ipack = Ok cells /\
    length cells = length ipack /\
    (forall k ik, 1 <= k -> ipack !! k = Some ik ->
       cells !! k = Some (solved_grid n_series n_parallel ocv r0 ik)) /\
    (0 < length ipack -> cells !! 0 = Some (zeros2 n_series n_parallel)).
Proof.
  unfold solver.
  destruct (solver_loop_run n_series n_parallel
              (Store [] ocv r0 ipack [] None))
    as (st' & Hrun & _ & Hl & Hin & H0).
  rewrite Hrun. exists (i_cells st'). done.
Qed.

Lemma zeros2_at2 m p :
  m < n_series -> p < n_parallel ->
  at2 (zeros2 n_series n_parallel) m p = Some fzero.
Proof.
  intros Hm Hp. unfold at2, zeros2.
  rewrite lookup_replicate_2 by done. simpl. by apply lookup_replicate_2.
Qed.

(** The solved array has the shape of line 77. *)
Lemma solver_loop_shape (st st' : store F) :
  shape2 n_series n_parallel (ocv_cells st) ->
  shape2 n_series n_parallel (r0_cells st) ->
  solver_loop n_series n_parallel st = Ok st' ->
  shape3 (length (i_pack st)) n_series n_parallel (i_cells st').
Proof.
  intros Ho Hr Hrun.
  destruct (solver_loop_run n_series n_parallel st)
    as (st'' & Hrun' & _ & Hl & Hin & H0).
  rewrite Hrun in Hrun'. injection Hrun' as <-.
  split; [done |]. apply Forall_lookup. intros k g Hk.
  destruct k as [|k].
  - rewrite H0 in Hk by (rewrite <- Hl; by eapply lookup_lt_Some).
    injection Hk as <-. apply shape2_replicate.
  - destruct (lookup_lt_is_Some_2 (i_pack st) (S k)) as [ik Hik].
    { rewrite <- Hl. by eapply lookup_lt_Some. }
    rewrite (Hin (S k) ik) in Hk by (done || lia).
    injection Hk as <-. by apply solved_grid_shape.
Qed.

Lemma solver_shape ocv (r0 : list (list F)) ipack cells :
  shape2 n_series n_parallel ocv -> shape2 n_series n_parallel r0 ->
  solver n_series n_parallel ocv r0 ipack = Ok cells ->
  shape3 (length ipack) n_series n_parallel cells.
Proof.
  intros Ho Hr Hrun. unfold solver in Hrun.
  destruct (solver_loop n_series n_parallel _) as [st'|e] eqn:Hloop; [|done].
  injection Hrun as <-.
  exact (solver_loop_shape (Store [] ocv r0 ipack [] None) st' Ho Hr Hloop).
Qed.
End GridFacts.

(** ** Transpose and reshape *)

Section FlattenFacts.
Context {A : Type}.
Implicit Types (cube : list (list (list A))) (rows : list (list A)).

Lemma zip_with2_at2 {B C} (f : A -> B -> C) (a : list (list A))
    (b : list (list B)) m p :
  at2 (zip_with (zip_with f) a b) m p =
  x ← at2 a m p; y ← at2 b m p; Some (f x y).
Proof.
  unfold at2. rewrite lookup_zip_with.
  destruct (a !! m) as [ra|]; simpl; [|done].
  destruct (b !! m) as [rb|]; simpl.
  - by rewrite lookup_zip_with.
  - by destruct (ra !! p).
Qed.

Lemma transpose120_cons n_series n_parallel g cube :
  transpose120 n_series n_parallel (g :: cube) =
  zip_with (zip_with cons) g (transpose120 n_series n_parallel cube).
Proof. reflexivity. Qed.

(** Entry [(m, p)] of the transposed view is the time series of the cell. *)
Lemma transpose120_series n_series n_parallel cube : forall m p col,
  at2 (transpose120 n_series n_parallel cube) m p = Some col ->
  forall t, col !! t = at3 cube t m p.
Proof.
  induction cube as [|g cube IH]; intros m p col Hcol t.
  - unfold at2, transpose120 in Hcol. simpl in Hcol.
    destruct (replicate n_series (replicate n_parallel []) !! m)
      as [row|] eqn:Hm; [|done].
    apply lookup_replicate in Hm as [-> _]. simpl in Hcol.
    apply lookup_replicate in Hcol as [-> _]. by destruct t.
  - rewrite transpose120_cons, zip_with2_at2 in Hcol.
    destruct (at2 g m p) as [x|] eqn:Hx; simpl in Hcol; [|done].
    destruct (at2 (transpose120 n_series n_parallel cube) m p)
      as [c|] eqn:Hc; simpl in Hcol; [|done].
    injection Hcol as <-. destruct t as [|t]; simpl.
    + unfold at3. simpl. by rewrite Hx.
    + rewrite (IH m p c Hc t). reflexivity.
Qed.

Lemma transpose120_shape n n_series n_parallel cube :
  shape3 n n_series n_parallel cube ->
  shape2 n_series n_parallel (transpose120 n_series n_parallel cube) /\
  Forall (Forall (fun col => length col = n))
    (transpose120 n_series n_parallel cube).
Proof.
  revert n. induction cube as [|g cube IH]; intros n [Hl Hall].
  - simpl in Hl. subst n. simpl. split; [apply shape2_replicate |].
    by apply Forall_replicate, Forall_replicate.
  - destruct n as [|n]; [done |]. apply Forall_cons in Hall as [Hg Hall].
    destruct (IH n) as [[Htl Htr] Hcols]; [split; [by injection Hl | done] |].
    destruct Hg as [Hgl Hgr].
    rewrite transpose120_cons. split; [split |].
    + rewrite length_zip_with, Hgl, Htl. apply Nat.min_id.
    + apply Forall_lookup. intros m row Hm.
      apply lookup_zip_with_Some in Hm as (ra & rb & -> & Hra & Hrb).
      rewrite Forall_lookup in Hgr. rewrite Forall_lookup in Htr.
      rewrite length_zip_with, (Hgr _ _ Hra), (Htr _ _ Hrb).
      apply Nat.min_id.
    + apply Forall_lookup. intros m row Hm.
      apply lookup_zip_with_Some in Hm as (ra & rb & -> & Hra & Hrb).
      apply Forall_lookup. intros p col Hp.
      apply lookup_zip_with_Some in Hp as (x & c & -> & Hx & Hc).
      simpl. f_equal.
      rewrite Forall_lookup in Hcols. specialize (Hcols _ _ Hrb).
      rewrite Forall_lookup in Hcols. exact (Hcols _ _ Hc).
Qed.

Lemma join_at n_rows cols rows' m p :
  shape2 n_rows cols rows' -> p < cols ->
  mjoin rows' !! (m * cols + p) = at2 rows' m p.
Proof.
  intros [_ Hall] Hp. apply option_eq. intros x.
  rewrite (join_lookup_Some_same_length' cols) by done.
  unfold at2. destruct (rows' !! m) as [row|]; simpl.
  - split; [intros (l & [= <-] & Hl); done | intros Hl; eauto].
  - split; [intros (l & [=] & _) | done].
Qed.

Lemma join_shape n_rows cols rows' :
  shape2 n_rows cols rows' -> length (mjoin rows') = n_rows * cols.
Proof.
  intros [Hl Hall]. rewrite length_join, (sum_list_fmap_same cols) by done.
  by rewrite Hl.
Qed.

Lemma size2_shape n_rows cols rows' :
  shape2 n_rows cols rows' -> size2 rows' = n_rows * cols.
Proof.
  intros [Hl Hall]. unfold size2.
  rewrite (sum_list_fmap_same cols) by done. by rewrite Hl.
Qed.

(** Cutting the concatenation of rows of one length gives the rows back. *)
Lemma chunk_join cols rows c row :
  Forall (fun r => length r = cols) rows -> rows !! c = Some row ->
  chunk cols (mjoin rows) c = row.
Proof.
  intros Hall Hc. apply list_eq. intros t. unfold chunk.
  rewrite lookup_take, lookup_drop.
  assert (length row = cols) as Hlen.
  { rewrite Forall_lookup in Hall. eauto. }
  case_decide as Ht.
  - apply option_eq. intros x.
    rewrite (join_lookup_Some_same_length' cols) by done.
    rewrite Hc. split; [intros (l & [= <-] & Hl); done | eauto].
  - symmetry. apply lookup_ge_None. lia.
Qed.
End FlattenFacts.

Section FlattenCells.
Context {F : Type} `{Arith F}.
Variables n_series n_parallel : nat.

Lemma flat_index_lt m p :
  m < n_series -> p < n_parallel -> m * n_parallel + p < n_series * n_parallel.
Proof. nia. Qed.

Lemma flatten_cells_run (ipack : list F) cells :
  shape3 (length ipack) n_series n_parallel cells -> 0 < length ipack ->
  exists cells2,
    flatten_cells n_series n_parallel ipack cells = Ok cells2 /\
    length cells2 = n_series * n_parallel /\
    Forall (fun row => length row = length ipack) cells2 /\
    (forall m p t, m < n_series -> p < n_parallel ->
       at2 cells2 (m * n_parallel + p) t = at3 cells t m p).
Proof.
  intros Hs HT. pose proof Hs as [Hl Hall].
  destruct (lookup_lt_is_Some_2 cells 0) as [g0 Hg0]; [lia |].
  assert (shape2 n_series n_parallel g0) as Hg0s.
  { rewrite Forall_lookup in Hall. eauto. }
  destruct (transpose120_shape _ _ _ _ Hs) as [Htr Hcols].
  set (tr := transpose120 n_series n_parallel cells) in *.
  assert (shape2 (n_series * n_parallel) (length ipack) (mjoin tr)) as Hrows.
  { split; [by eapply join_shape |]. by apply Forall_join. }
  unfold flatten_cells, index. rewrite Hg0. simpl.
  unfold reshape2. fold tr.
  rewrite (size2_shape _ _ _ Hg0s).
  rewrite decide_True by (by eapply join_shape).
  eexists. split; [reflexivity |].
  assert (forall c, c < n_series * n_parallel ->
            exists row, mjoin tr !! c = Some row /\
              chunk (length ipack) (mjoin (mjoin tr)) c = row) as Hchunk.
  { intros c Hc. destruct (lookup_lt_is_Some_2 (mjoin tr) c) as [row Hrow].
    { by rewrite (shape2_length _ _ _ Hrows). }
    exists row. split; [done |]. eapply chunk_join; [|done]. apply Hrows. }
  split; [by rewrite length_fmap, length_seq |]. split.
  - apply Forall_fmap, Forall_forall. intros c Hc.
    apply elem_of_seq in Hc. destruct (Hchunk c) as (row & Hrow & Hck); [lia |].
    simpl. rewrite Hck. by eapply shape2_lookup.
  - intros m p t Hm Hp. pose proof (flat_index_lt m p Hm Hp) as Hc.
    destruct (Hchunk _ Hc) as (row & Hrow & Hck).
    unfold at2 at 1. rewrite list_lookup_fmap, lookup_seq_lt by done.
    simpl. rewrite Hck.
    rewrite (join_at n_series n_parallel) in Hrow by done.
    by apply (transpose120_series n_series n_parallel cells m p).
Qed.

Lemma flat_index_inj m p m' p' :
  p < n_parallel -> p' < n_parallel ->
  m * n_parallel + p = m' * n_parallel + p' -> m = m' /\ p = p'.
Proof. intros Hp Hp' Heq. apply Nat.mul_split_l in Heq; naive_solver. Qed.

Lemma flat_index_surj c :
  c < n_series * n_parallel ->
  c / n_parallel < n_series /\ c mod n_parallel < n_parallel /\
  c = (c / n_parallel) * n_parallel + c mod n_parallel.
Proof.
  intros Hc. assert (n_parallel <> 0) as Hne by lia.
  split; [apply Nat.Div0.div_lt_upper_bound; lia |].
  split; [by apply Nat.mod_upper_bound |].
  rewrite Nat.mul_comm. apply Nat.div_mod_eq.
Qed.
End FlattenCells.

(** ** Exact arithmetic *)

Section ExactArithmetic.
Implicit Types (a b i o r v : Qc) (os rs qs : list Qc) (x y : num).

Lemma Qc_is_zero_false r : r <> 0%Qc -> Qc_is_zero r = false.
Proof.
  intros Hr. unfold Qc_is_zero. destruct (Qc_eq_bool r 0) eqn:Heq; [|done].
  by apply Qc_eq_bool_correct in Heq.
Qed.

Lemma num_div_fin a b : b <> 0%Qc -> num_div (Fin a) (Fin b) = Fin (a / b).
Proof. intros Hb. unfold num_div. by rewrite Qc_is_zero_false. Qed.

Lemma num_add_fin a b : num_add (Fin a) (Fin b) = Fin (a + b).
Proof. reflexivity. Qed.

Lemma num_sub_fin a b : num_sub (Fin a) (Fin b) = Fin (a - b).
Proof. reflexivity. Qed.

Lemma foldl_add_fin qs : forall a,
  foldl num_add (Fin a) (Fin <$> qs) = Fin (a + Qc_sum qs).
Proof.
  induction qs as [|q qs IH]; intros a; simpl.
  - f_equal. ring.
  - rewrite num_add_fin, IH. f_equal. ring.
Qed.

Lemma np_sum_fin qs : np_sum (Fin <$> qs) = Fin (Qc_sum qs).
Proof.
  unfold np_sum. simpl. rewrite foldl_add_fin. f_equal. ring.
Qed.

Lemma zip_div_fin os rs :
  Forall (fun r => r <> 0%Qc) rs ->
  zip_with num_div (Fin <$> os) (Fin <$> rs) = Fin <$> zip_with Qcdiv os rs.
Proof.
  intros Hrs. revert os. induction Hrs as [|r rs Hr _ IH]; intros [|o os]; try done.
  rewrite !fmap_cons. simpl. rewrite IH. f_equal. by apply num_div_fin.
Qed.

Lemma recip_fin rs :
  Forall (fun r => r <> 0%Qc) rs ->
  map (num_div (Fin 1)) (Fin <$> rs) = Fin <$> (Qc_recip <$> rs).
Proof.
  induction 1 as [|r rs Hr _ IH]; [done |].
  rewrite !fmap_cons, <- IH. simpl. f_equal. by apply num_div_fin.
Qed.

Lemma module_voltage_fin os rs i :
  Forall (fun r => r <> 0%Qc) rs -> sumB rs <> 0%Qc ->
  module_voltage (Fin <$> os) (Fin <$> rs) (Fin i) =
  Fin ((sumA os rs - i) / sumB rs).
Proof.
  intros Hrs HB. unfold module_voltage, sum_ocv_over_r0, sum_recip_r0.
  simpl. rewrite zip_div_fin, recip_fin, !np_sum_fin by done.
  fold (sumA os rs) (sumB rs). rewrite num_sub_fin. by apply num_div_fin.
Qed.

Lemma currents_row_fin os rs v :
  Forall (fun r => r <> 0%Qc) rs ->
  zip_with (fun x y => cell_current x y (Fin v)) (Fin <$> os) (Fin <$> rs) =
  Fin <$> zip_with (fun o r => ((o - v) / r)%Qc) os rs.
Proof.
  intros Hrs. revert os. induction Hrs as [|r rs Hr _ IH]; intros [|o os]; try done.
  rewrite !fmap_cons. simpl. rewrite IH. f_equal. unfold cell_current. simpl.
  rewrite num_sub_fin. by apply num_div_fin.
Qed.

Lemma currents_sum os rs v :
  length os = length rs -> Forall (fun r => r <> 0%Qc) rs ->
  Qc_sum (zip_with (fun o r => ((o - v) / r)%Qc) os rs) =
  (sumA os rs - v * sumB rs)%Qc.
Proof.
  intros Hlen Hrs. revert os Hlen.
  induction Hrs as [|r rs Hr _ IH]; intros [|o os] Hlen; try done.
  - unfold sumA, sumB. simpl. ring.
  - injection Hlen as Hlen. specialize (IH os Hlen).
    unfold sumA, sumB, Qc_recip in *. csimpl. rewrite IH. field. done.
Qed.

(** Kirchhoff's current law at the parallel node. *)
Lemma node_balance (A B i : Qc) :
  B <> 0%Qc -> (A - (A - i) / B * B)%Qc = i.
Proof. intros HB. field. done. Qed.
End ExactArithmetic.

Lemma Qc_recip_pos (r : Qc) : (0 < r)%Qc -> (0 < Qc_recip r)%Qc.
Proof.
  unfold Qclt. intros Hr.
  change (this (Qc_recip r)) with (Qred (1 * Qred (/ this r))).
  change (this 0%Qc) with 0%Q in *.
  rewrite !Qred_correct, Qmult_1_l. by apply Qinv_lt_0_compat.
Qed.

Lemma Qcplus_pos (a b : Qc) : (0 < a)%Qc -> (0 <= b)%Qc -> (0 < a + b)%Qc.
Proof.
  unfold Qclt, Qcle. intros Ha Hb.
  change (this (a + b)%Qc) with (Qred (this a + this b)).
  change (this 0%Qc) with 0%Q in *.
  rewrite Qred_correct, <- (Qplus_0_l 0). by apply Qplus_lt_le_compat.
Qed.

Lemma sumB_nonneg (rs : list Qc) :
  Forall (fun r => (0 < r)%Qc) rs -> (0 <= sumB rs)%Qc.
Proof.
  induction 1 as [|r rs Hr _ IH]; [done |].
  change (sumB (r :: rs)) with (Qc_recip r + sumB rs)%Qc.
  apply Qclt_le_weak, Qcplus_pos; [by apply Qc_recip_pos | done].
Qed.

(** Positive resistances, in a module with at least one cell, meet the
    conditions under which the node equation has a solution. *)
Lemma positive_resistances_valid (rs : list Qc) :
  rs <> [] -> Forall (fun r => (0 < r)%Qc) rs ->
  Forall (fun r => r <> 0%Qc) rs /\ sumB rs <> 0%Qc.
Proof.
  intros Hne Hpos. split.
  - eapply Forall_impl; [exact Hpos |]. intros r Hr Heq. subst r.
    by apply (Qclt_not_eq _ _ Hr).
  - destruct Hpos as [|r rs Hr Hrs]; [done |].
    change (sumB (r :: rs)) with (Qc_recip r + sumB rs)%Qc.
    intros Heq. apply (Qclt_not_eq 0 (Qc_recip r + sumB rs)); [|done].
    apply Qcplus_pos; [by apply Qc_recip_pos | by apply sumB_nonneg].
Qed.

(** ** Propagation of infinities and NaN *)

Section NonFinite.
Implicit Types (x y : num) (xs : list num).

Lemma is_finite_add x y :
  is_finite (num_add x y) = is_finite x && is_finite y.
Proof. by destruct x, y. Qed.

Lemma is_finite_sub x y :
  is_finite (num_sub x y) = is_finite x && is_finite y.
Proof. by destruct x, y. Qed.

Lemma inf_of_not_finite b : is_finite (inf_of b) = false.
Proof. by destruct b. Qed.

Lemma div_zero_not_finite x : is_finite (num_div x (Fin 0)) = false.
Proof.
  destruct x as [a| | |]; unfold num_div; try done.
  change (Qc_is_zero 0) with true. cbv iota.
  destruct (Qc_is_zero a); [done | apply inf_of_not_finite].
Qed.

Lemma not_finite_div x y : is_finite x = false -> is_finite (num_div x y) = false.
Proof.
  destruct x as [a| | |]; [done | | |]; intros _; destruct y as [b| | |];
    try done; apply inf_of_not_finite.
Qed.

Lemma foldl_add_not_finite xs : forall x,
  is_finite (foldl num_add x xs) = is_finite x && forallb is_finite xs.
Proof.
  induction xs as [|y xs IH]; intros x; simpl.
  - by rewrite andb_true_r.
  - by rewrite IH, is_finite_add, andb_assoc.
Qed.

Lemma np_sum_not_finite xs p x :
  xs !! p = Some x -> is_finite x = false -> is_finite (np_sum xs) = false.
Proof.
  intros Hp Hx. unfold np_sum. rewrite foldl_add_not_finite. simpl.
  apply not_true_is_false. intros Hall.
  rewrite forallb_forall in Hall.
  rewrite Hall in Hx; [done |]. apply list_elem_of_In.
  by eapply list_elem_of_lookup_2.
Qed.

(** A module with a cell of zero resistance has no finite voltage. *)
Lemma module_voltage_not_finite (orow rrow : list num) ik p o :
  orow !! p = Some o -> rrow !! p = Some (Fin 0) ->
  is_finite (module_voltage orow rrow ik) = false.
Proof.
  intros Ho Hr. unfold module_voltage. simpl.
  apply not_finite_div. rewrite is_finite_sub.
  unfold sum_ocv_over_r0.
  rewrite (np_sum_not_finite _ p (num_div o (Fin 0))); [done | |].
  - by rewrite lookup_zip_with, Ho, Hr.
  - apply div_zero_not_finite.
Qed.

Lemma cell_current_not_finite (o r v : num) :
  is_finite v = false -> is_finite (cell_current o r v) = false.
Proof.
  intros Hv. unfold cell_current. simpl. apply not_finite_div.
  by rewrite is_finite_sub, Hv, andb_false_r.
Qed.
End NonFinite.

(** ** A uniform resistance *)

Section UniformResistance.
Implicit Types (R o c : Qc) (os : list Qc) (x : num).

Lemma num_mul_one x : num_mul x (Fin 1) = x.
Proof.
  destruct x as [a| | |]; try done.
  unfold num_mul. f_equal. apply Qcmult_1_r.
Qed.

Lemma scale2_ones n_series n_parallel x :
  scale2 x (ones2 n_series n_parallel) =
  replicate n_series (replicate n_parallel x).
Proof.
  unfold scale2, ones2.
  change (map ?f ?l) with (f <$> l). rewrite fmap_replicate.
  change (map ?f ?l) with (f <$> l). rewrite fmap_replicate.
  simpl. by rewrite num_mul_one.
Qed.

Lemma Qc_of_nat_S n : Qc_of_nat (S n) = (1 + Qc_of_nat n)%Qc.
Proof.
  unfold Qc_of_nat. apply Qc_is_canon. simpl.
  rewrite !Qred_correct, Nat2Z.inj_succ. unfold Z.succ.
  rewrite inject_Z_plus. ring.
Qed.

Lemma Qc_of_nat_not_zero n : 0 < n -> Qc_of_nat n <> 0%Qc.
Proof.
  intros Hn Heq. unfold Qc_of_nat in Heq.
  change 0%Qc with (Q2Qc (inject_Z 0)) in Heq.
  apply Q2Qc_eq_iff in Heq.
  apply (proj1 (inject_Z_injective _ _)) in Heq. lia.
Qed.

Lemma sumB_uniform n R : sumB (replicate n R) = (Qc_of_nat n * (1 / R))%Qc.
Proof.
  induction n as [|n IH].
  - unfold sumB. simpl. change (Qc_of_nat 0) with 0%Qc. ring.
  - rewrite Qc_of_nat_S. change (sumB (replicate (S n) R))
      with (Qc_recip R + sumB (replicate n R))%Qc.
    rewrite IH. unfold Qc_recip. ring.
Qed.

Lemma sumA_uniform os R :
  R <> 0%Qc -> sumA os (replicate (length os) R) = (Qc_sum os / R)%Qc.
Proof.
  intros HR. unfold sumA. induction os as [|o os IH]; simpl.
  - by field.
  - rewrite IH. by field.
Qed.
End UniformResistance.

(** ** Evaluation of closed examples *)

Lemma dec_neq n1 d1 n2 d2 :
  Qeq_bool (n1 # d1) (n2 # d2) = false -> dec n1 d1 <> dec n2 d2.
Proof.
  intros Hne Heq. unfold dec in Heq.
  assert (Q2Qc (n1 # d1) = Q2Qc (n2 # d2)) as HQ by congruence.
  apply Q2Qc_eq_iff, Qeq_bool_iff in HQ. congruence.
Qed.

Lemma recip_not_zero (r : Qc) : r <> 0%Qc -> sumB [r] <> 0%Qc.
Proof.
  intros Hr HB. unfold sumB, Qc_recip in HB. simpl in HB.
  assert (1 = (1 / r + 0) * r)%Qc as H1 by (field; done).
  rewrite HB in H1. by rewrite Qcmult_0_l in H1.
Qed.

Lemma example_grid m p :
  m < 2 -> p < 3 ->
  at2 (solved_grid 2 3 ocv_3v7 r0_10mohm (dec 30 1)) m p = Some (dec 10 1).
Proof.
  intros Hm Hp.
  destruct m as [|[|m]]; [| |lia]; (destruct p as [|[|[|p]]]; [| | |lia]);
    num_compute.
Qed.

Lemma Qc_neq_bool (x y : Qc) : Qc_eq_bool x y = false -> x <> y.
Proof.
  intros Hb Heq. unfold Qc_eq_bool in Hb.
  destruct (Qcanon.Qc_eq_dec x y) as [_|Hne]; [done | by apply Hne].
Qed.

(** * The claims *)

(** ** Properties that hold for every arithmetic *)

Section SolverClaims.
Context {F : Type} `{Arith F}.
Variables n_series n_parallel : nat.
Implicit Types (ocv : list (list F)) (ipack : list F) (st : store F).

(** C2.  Per-timestep solver algorithm.  At every timestep [k >= 1] the
    voltage that iteration [k] of the loop binds to [v_modules[m]] is
    [(sum_p ocv[m,p]/r0[m,p] - i_pack[k]) / sum_p (1/r0[m,p])], and the
    current it writes to [i_cells[k, m, p]] is
    [(ocv[m,p] - v_modules[m]) / r0[m,p]]; that entry is still there when
    the solver returns. *)
Theorem solver_step_formulas ocv (r0 : list (list F)) ipack k m p ik orow rrow o r :
  shape2 n_series n_parallel ocv -> shape2 n_series n_parallel r0 ->
  1 <= k -> ipack !! k = Some ik ->
  ocv !! m = Some orow -> r0 !! m = Some rrow ->
  orow !! p = Some o -> rrow !! p = Some r ->
  let vm := fdiv (fsub (np_sum (zip_with fdiv orow rrow)) ik)
                 (np_sum (map (fdiv fone) rrow)) in
  (forall st,
      ocv_cells st = ocv -> r0_cells st = r0 -> i_pack st = ipack ->
      length (i_cells st) = length ipack ->
      exists st' v,
        loop_body n_series n_parallel k st = Ok st' /\
        v_modules st' = Some v /\ v !! m = Some vm /\
        at3 (i_cells st') k m p = Some (fdiv (fsub o vm) r)) /\
  (exists cells,
      solver n_series n_parallel ocv r0 ipack = Ok cells /\
      at3 cells k m p = Some (fdiv (fsub o vm) r)).
Proof.
  intros Ho Hr Hk Hik Hom Hrm Hop Hrp vm.
  assert (at2 (solved_grid n_series n_parallel ocv r0 ik) m p
          = Some (fdiv (fsub o vm) r)) as Hcell.
  { unfold at2. rewrite (solved_grid_row _ _ _ _ _ _ _ _ Ho Hr Hom Hrm).
    simpl. by rewrite lookup_zip_with, Hop, Hrp. }
  split.
  - intros st <- <- <- Hlen.
    pose proof (lookup_lt_Some _ _ _ Hik) as Hlt.
    rewrite (loop_body_ok _ _ _ _ ik) by (done || lia).
    eexists _, _. split; [reflexivity |]. simpl. split; [reflexivity |].
    split; [by apply module_voltages_lookup |].
    unfold at3. rewrite list_lookup_insert_eq by lia. exact Hcell.
  - destruct (solver_run n_series n_parallel ocv r0 ipack)
      as (cells & Hrun & _ & Hin & _).
    exists cells. split; [done |].
    unfold at3. rewrite (Hin k ik Hk Hik). exact Hcell.
Qed.

(** C5.  Timestep 0 is skipped: the loop starts at index 1, so whatever
    [i_pack[0]] is, every current of timestep 0 keeps the zero of
    line 77. *)
Theorem timestep_zero_is_zero ocv (r0 : list (list F)) (i0 : F) rest m p :
  shape2 n_series n_parallel ocv -> shape2 n_series n_parallel r0 ->
  m < n_series -> p < n_parallel ->
  exists cells,
    solver n_series n_parallel ocv r0 (i0 :: rest) = Ok cells /\
    at3 cells 0 m p = Some fzero.
Proof.
  intros _ _ Hm Hp.
  destruct (solver_run n_series n_parallel ocv r0 (i0 :: rest))
    as (cells & Hrun & _ & _ & H0).
  exists cells. split; [done |].
  unfold at3. rewrite H0 by (simpl; lia). simpl. by apply zeros2_at2.
Qed.

(** C7.  The solver is memoryless.  With the same static grids, two
    timesteps [k, j >= 1] that carry the same pack current get the same
    grid of currents, in one run or in two runs whose pack currents differ
    everywhere else; and one iteration writes the same grid whatever
    [i_cells] and the other entries of [i_pack] hold. *)
Theorem solver_memoryless ocv (r0 : list (list F)) :
  shape2 n_series n_parallel ocv -> shape2 n_series n_parallel r0 ->
  (forall ipack1 ipack2 k j x,
      1 <= k -> 1 <= j -> ipack1 !! k = Some x -> ipack2 !! j = Some x ->
      exists cells1 cells2 g,
        solver n_series n_parallel ocv r0 ipack1 = Ok cells1 /\
        solver n_series n_parallel ocv r0 ipack2 = Ok cells2 /\
        cells1 !! k = Some g /\ cells2 !! j = Some g) /\
  (forall st1 st2 k x,
      ocv_cells st1 = ocv -> ocv_cells st2 = ocv ->
      r0_cells st1 = r0 -> r0_cells st2 = r0 ->
      i_pack st1 !! k = Some x -> i_pack st2 !! k = Some x ->
      k < length (i_cells st1) -> k < length (i_cells st2) ->
      exists st1' st2' g,
        loop_body n_series n_parallel k st1 = Ok st1' /\
        loop_body n_series n_parallel k st2 = Ok st2' /\
        i_cells st1' !! k = Some g /\ i_cells st2' !! k = Some g).
Proof.
  intros _ _. split.
  - intros ipack1 ipack2 k j x Hk Hj Hx1 Hx2.
    destruct (solver_run n_series n_parallel ocv r0 ipack1)
      as (cells1 & Hrun1 & _ & Hin1 & _).
    destruct (solver_run n_series n_parallel ocv r0 ipack2)
      as (cells2 & Hrun2 & _ & Hin2 & _).
    exists cells1, cells2, (solved_grid n_series n_parallel ocv r0 x).
    split; [done |]. split; [done |]. split; [by apply Hin1 | by apply Hin2].
  - intros st1 st2 k x <- Ho <- Hr Hx1 Hx2 Hl1 Hl2.
    rewrite (loop_body_ok _ _ _ _ x Hx1 Hl1), (loop_body_ok _ _ _ _ x Hx2 Hl2).
    eexists _, _, _. split; [reflexivity |]. split; [reflexivity |]. simpl.
    rewrite !list_lookup_insert_eq by done. by rewrite Ho, Hr.
Qed.

(** C8.  Frame property on the static parameters.  After any number of
    iterations of the loop, and when the loop has completed, [zi],
    [ocv_cells] and [r0_cells] are what they were before line 77. *)
Theorem static_grids_unchanged st :
  shape2 n_series n_parallel (ocv_cells st) ->
  shape2 n_series n_parallel (r0_cells st) ->
  (forall n, exists st',
      for_each (loop_body n_series n_parallel)
        (take n (range 1 (length (i_pack st))))
        (alloc_cells n_series n_parallel st) = Ok st' /\
      zi st' = zi st /\ ocv_cells st' = ocv_cells st /\
      r0_cells st' = r0_cells st) /\
  (exists st',
      solver_loop n_series n_parallel st = Ok st' /\
      zi st' = zi st /\ ocv_cells st' = ocv_cells st /\
      r0_cells st' = r0_cells st).
Proof.
  intros _ _. split.
  - intros n. unfold range. rewrite take_seq.
    destruct (loop_run n_series n_parallel
                (n `min` (length (i_pack st) - 1)) 1
                (alloc_cells n_series n_parallel st))
      as (st' & Hrun & (Hz & Ho & Hr & _) & _).
    + simpl. lia.
    + simpl. apply length_replicate.
    + exists st'. done.
  - destruct (solver_loop_run n_series n_parallel st)
      as (st' & Hrun & (Hz & Ho & Hr & _) & _).
    exists st'. done.
Qed.

(** C9 (as amended).  Flat-index bijection.  For a pack current with at
    least one timestep, line 83 returns [i_cells2] with
    [n_series * n_parallel] rows of length [len(i_pack)], and
    [i_cells2[m * n_parallel + p][t] = i_cells[t, m, p]]; the flat index
    [m * n_parallel + p] is one-to-one on the cells of the pack and
    reaches every row. *)
Theorem flat_index_bijection ocv (r0 : list (list F)) ipack :
  shape2 n_series n_parallel ocv -> shape2 n_series n_parallel r0 ->
  0 < length ipack ->
  exists cells cells2,
    solver n_series n_parallel ocv r0 ipack = Ok cells /\
    flatten_cells n_series n_parallel ipack cells = Ok cells2 /\
    length cells2 = n_series * n_parallel /\
    Forall (fun row => length row = length ipack) cells2 /\
    (forall m p t, m < n_series -> p < n_parallel -> t < length ipack ->
       exists x, at3 cells t m p = Some x /\
                 at2 cells2 (m * n_parallel + p) t = Some x) /\
    (forall m p m' p', p < n_parallel -> p' < n_parallel ->
       m * n_parallel + p = m' * n_parallel + p' -> m = m' /\ p = p') /\
    (forall c, c < n_series * n_parallel ->
       exists m p, m < n_series /\ p < n_parallel /\ c = m * n_parallel + p).
Proof.
  intros Ho Hr HT.
  destruct (solver_run n_series n_parallel ocv r0 ipack)
    as (cells & Hrun & Hlen & _).
  pose proof (solver_shape _ _ _ _ _ _ Ho Hr Hrun) as Hs.
  destruct (flatten_cells_run n_series n_parallel ipack cells Hs HT)
    as (cells2 & Hflat & Hrows & Hcols & Hat).
  exists cells, cells2. do 4 (split; [done |]). split; [|split].
  - intros m p t Hm Hp Ht. rewrite Hat by done.
    destruct Hs as [Hl Hall].
    destruct (lookup_lt_is_Some_2 cells t) as [g Hg]; [lia |].
    rewrite Forall_lookup in Hall. destruct (Hall _ _ Hg) as [Hgl Hgr].
    destruct (lookup_lt_is_Some_2 g m) as [row Hrow]; [lia |].
    rewrite Forall_lookup in Hgr.
    destruct (lookup_lt_is_Some_2 row p) as [x Hx].
    { by rewrite (Hgr _ _ Hrow). }
    exists x. unfold at3, at2. by rewrite Hg; simpl; rewrite Hrow.
  - intros m p m' p'. apply flat_index_inj.
  - intros c Hc.
    destruct (flat_index_surj n_series n_parallel c Hc) as (Hm & Hp & Heq).
    eauto.
Qed.
End SolverClaims.

(** ** Properties of the exact arithmetic *)

Section ExactClaims.
Variables n_series n_parallel : nat.
Implicit Types (ocv : list (list num)) (ipack : list num).

(** Row [m] of the solved grid when the module's data are finite. *)
Lemma solved_row_fin ocv (r0 : list (list num)) m os rs i :
  shape2 n_series n_parallel ocv -> shape2 n_series n_parallel r0 ->
  ocv !! m = Some (Fin <$> os) -> r0 !! m = Some (Fin <$> rs) ->
  Forall (fun r => r <> 0%Qc) rs -> sumB rs <> 0%Qc ->
  solved_grid n_series n_parallel ocv r0 (Fin i) !! m =
  Some (Fin <$> zip_with
          (fun o r => ((o - (sumA os rs - i) / sumB rs) / r)%Qc) os rs).
Proof.
  intros Ho Hr Hom Hrm Hrs HB.
  rewrite (solved_grid_row _ _ _ _ _ _ _ _ Ho Hr Hom Hrm).
  by rewrite module_voltage_fin, currents_row_fin.
Qed.

End ExactClaims.

(** ** The example scenario in binary64 *)

Lemma example_grid_b64 m p :
  m < 2 -> p < 3 ->
  at2 (solved_grid 2 3 ocv_3v7_b64 r0_10mohm_b64 30%float) m p
  = Some 10.000000000000009%float.
Proof.
  intros Hm Hp.
  destruct m as [|[|m]]; [| |lia]; (destruct p as [|[|[|p]]]; [| | |lia]);
    vm_compute; reflexivity.
Qed.

(** C3 (as amended).  Example scenario.  With two modules of three cells,
    every cell at 3.7 V and 0.01 ohm, and a constant pack current of 30 A,
    every cell carries 10 A at every timestep [t >= 1] and 0 A at
    timestep 0: a third of the pack current, exactly in exact arithmetic,
    and the binary64 number 10.000000000000009, which is within 1e-15 of
    10 A in relative terms, in the arithmetic of the program. *)
Theorem example_scenario n t m p :
  t < n -> m < 2 -> p < 3 ->
  (exists cells,
      solver 2 3 ocv_3v7 r0_10mohm (i_pack_30A n) = Ok cells /\
      at3 cells t m p = Some (if decide (t = 0) then dec 0 1 else dec 10 1)) /\
  (exists cells,
      solver 2 3 ocv_3v7_b64 r0_10mohm_b64 (i_pack_b64 n 30) = Ok cells /\
      at3 cells t m p
      = Some (if decide (t = 0) then 0%float
              else 10.000000000000009%float)) /\
  rel_error_within (1 # 10 ^ 15) 10.000000000000009 10 = true.
Proof.
  intros Ht Hm Hp. split; [|split].
  - destruct (solver_run 2 3 ocv_3v7 r0_10mohm (i_pack_30A n))
      as (cells & Hrun & _ & Hin & H0).
    exists cells. split; [done |]. unfold at3. case_decide as Hz.
    + subst t.
      rewrite H0 by (unfold i_pack_30A; rewrite length_replicate; lia).
      simpl. rewrite (zeros2_at2 2 3) by done. num_compute.
    + rewrite (Hin t (dec 30 1)); [by apply example_grid | lia |].
      by apply lookup_replicate_2.
  - destruct (solver_run 2 3 ocv_3v7_b64 r0_10mohm_b64 (i_pack_b64 n 30))
      as (cells & Hrun & _ & Hin & H0).
    exists cells. split; [done |]. unfold at3. case_decide as Hz.
    + subst t.
      rewrite H0 by (unfold i_pack_b64; rewrite length_replicate; lia).
      cbn [mbind option_bind].
      exact (zeros2_at2 (F:=float) 2 3 m p Hm Hp).
    + rewrite (Hin t 30%float); [by apply example_grid_b64 | lia |].
      by apply lookup_replicate_2.
  - vm_compute. reflexivity.
Qed.

(** C4 (as amended).  Single-cell pack.  With one module of one cell whose
    voltage is finite and whose resistance is finite and not zero, the
    current of the cell is [i_pack[k]] at every timestep [k >= 1]. *)
Theorem single_cell_current (o r : Qc) (ipack : list num) k i :
  r <> 0%Qc -> 1 <= k -> ipack !! k = Some (Fin i) ->
  exists cells,
    solver 1 1 [[Fin o]] [[Fin r]] ipack = Ok cells /\
    at3 cells k 0 0 = Some (Fin i).
Proof.
  intros Hr Hk Hik.
  destruct (solver_run 1 1 [[Fin o]] [[Fin r]] ipack)
    as (cells & Hrun & _ & Hin & _).
  exists cells. split; [done |].
  assert (shape2 1 1 [[Fin o]] /\ shape2 1 1 [[Fin r]]) as [Ho Hs].
  { split; (split; [done | by repeat constructor]). }
  pose proof (solved_row_fin 1 1 [[Fin o]] [[Fin r]] 0 [o] [r] i Ho Hs
                eq_refl eq_refl) as Hrow.
  unfold at3, at2. rewrite (Hin k (Fin i) Hk Hik). cbn [mbind option_bind].
  rewrite Hrow; [|by repeat constructor | by apply recip_not_zero].
  simpl. do 2 f_equal. unfold sumA, sumB, Qc_recip. simpl. by field.
Qed.

(** C6 (as amended).  Invalid resistance.  The solver does not validate
    the resistances: on grids of the shape of the pack it returns an array
    whatever their entries are, and raises nothing.  Where a cell has
    resistance zero, every current of its module is an infinity or a NaN at
    every timestep [k >= 1]. *)
Theorem invalid_resistance_not_detected n_series n_parallel
    (ocv r0 : list (list num)) (ipack : list num) :
  shape2 n_series n_parallel ocv -> shape2 n_series n_parallel r0 ->
  exists cells,
    solver n_series n_parallel ocv r0 ipack = Ok cells /\
    forall m p0 k p,
      at2 r0 m p0 = Some (Fin 0) ->
      1 <= k < length ipack -> p < n_parallel ->
      exists x, at3 cells k m p = Some x /\ is_finite x = false.
Proof.
  intros Ho Hr.
  destruct (solver_run n_series n_parallel ocv r0 ipack)
    as (cells & Hrun & _ & Hin & _).
  exists cells. split; [done |].
  intros m p0 k p Hz Hk Hp.
  destruct (lookup_lt_is_Some_2 ipack k) as [ik Hik]; [lia |].
  unfold at2 in Hz. destruct (r0 !! m) as [rrow|] eqn:Hrm; [|done].
  simpl in Hz.
  destruct (lookup_lt_is_Some_2 ocv m) as [orow Hom].
  { rewrite (shape2_length _ _ _ Ho), <- (shape2_length _ _ _ Hr).
    by eapply lookup_lt_Some. }
  pose proof (shape2_lookup _ _ _ _ _ Ho Hom) as Hol.
  pose proof (shape2_lookup _ _ _ _ _ Hr Hrm) as Hrl.
  destruct (lookup_lt_is_Some_2 orow p0) as [o0 Ho0].
  { rewrite Hol, <- Hrl. by eapply lookup_lt_Some. }
  destruct (lookup_lt_is_Some_2 orow p) as [o Hop]; [lia |].
  destruct (lookup_lt_is_Some_2 rrow p) as [r Hrp]; [lia |].
  exists (cell_current o r (module_voltage orow rrow ik)).
  unfold at3, at2. rewrite (Hin k ik) by (done || lia). simpl.
  rewrite (solved_grid_row _ _ _ _ _ _ _ _ Ho Hr Hom Hrm). simpl.
  rewrite lookup_zip_with, Hop, Hrp. split; [done |].
  apply cell_current_not_finite.
  exact (module_voltage_not_finite orow rrow ik p0 o0 Ho0 Hz).
Qed.

(** ** The resistance grid of line 72 *)

Section ResistanceGrid.
Context {F : Type} `{Arith F}.
Variables n_series n_parallel : nat.

Lemma mapM_index_ok j (rows : list (list F)) col :
  Forall2 (fun row x => row !! j = Some x) rows col ->
  mapM (M := result) (fun row => index row j) rows = Ok col.
Proof.
  induction 1 as [|row x rows col Hx _ IH]; [done |].
  change (mapM (fun row => index row j) (row :: rows))
    with (y ← index row j;
          ys ← mapM (M := result) (fun row => index row j) rows;
          Ok (y :: ys)).
  assert (index row j = Ok x) as -> by (unfold index; by rewrite Hx).
  cbn [mbind result_bind]. by rewrite IH.
Qed.

(** [a[:, j]] on a table with more than [j] columns. *)
Lemma column_rows j (a : table F) col :
  j < tab_cols a ->
  Forall2 (fun row x => row !! j = Some x) (tab_rows a) col ->
  column j a = Ok col.
Proof.
  intros Hj Hcol. unfold column. rewrite decide_True by done.
  by apply mapM_index_ok.
Qed.

Lemma column_too_few j (a : table F) :
  tab_cols a <= j -> column j a = Raise IndexError.
Proof. intros Hj. unfold column. rewrite decide_False; [done | lia]. Qed.

(** The entries of a column of a well-formed table. *)
Lemma table_column_exists j (a : table F) :
  table_wf a -> j < tab_cols a ->
  exists col, Forall2 (fun row x => row !! j = Some x) (tab_rows a) col.
Proof.
  intros Hwf Hj. unfold table_wf in Hwf.
  induction Hwf as [|row rows Hrow _ [col IH]].
  - exists []. constructor.
  - destruct (lookup_lt_is_Some_2 row j) as [x Hx]; [lia |].
    exists (x :: col). by constructor.
Qed.

Lemma resistance_grid_rows (rctau : table F) col :
  2 < tab_cols rctau ->
  Forall2 (fun row x => row !! 2 = Some x) (tab_rows rctau) col ->
  resistance_grid n_series n_parallel rctau
  = Ok (scale2 (np_mean col) (ones2 n_series n_parallel)).
Proof.
  intros Hc Hcol. unfold resistance_grid.
  by rewrite (column_rows 2 rctau col Hc Hcol).
Qed.
End ResistanceGrid.

(** The mean of finite numbers, in exact arithmetic. *)
Lemma np_mean_fin (rs : list Qc) :
  rs <> [] -> np_mean (Fin <$> rs) = Fin (Qc_mean rs).
Proof.
  intros Hrs. unfold np_mean. rewrite np_sum_fin, length_fmap.
  change (fdiv (Fin (Qc_sum rs)) (of_nat (length rs)))
    with (num_div (Fin (Qc_sum rs)) (Fin (Qc_of_nat (length rs)))).
  rewrite num_div_fin; [done |].
  apply Qc_of_nat_not_zero. destruct rs; [done | simpl; lia].
Qed.

Lemma Qc_mean_not_zero (rs : list Qc) :
  rs <> [] -> Qc_sum rs <> 0%Qc -> Qc_mean rs <> 0%Qc.
Proof.
  intros Hrs Hsum Hmean. unfold Qc_mean in Hmean.
  assert (Qc_of_nat (length rs) <> 0%Qc) as Hn.
  { apply Qc_of_nat_not_zero. destruct rs; [done | simpl; lia]. }
  apply Hsum.
  assert (Qc_sum rs = Qc_sum rs / Qc_of_nat (length rs)
                      * Qc_of_nat (length rs))%Qc as -> by (by field).
  rewrite Hmean. ring.
Qed.

Lemma resistance_grid_fin n_series n_parallel (rctau : table num)
    (rs : list Qc) :
  2 < tab_cols rctau ->
  Forall2 (fun row r => row !! 2 = Some (Fin r)) (tab_rows rctau) rs ->
  rs <> [] ->
  resistance_grid n_series n_parallel rctau
  = Ok (replicate n_series (replicate n_parallel (Fin (Qc_mean rs)))).
Proof.
  intros Hc Hcol Hrs.
  rewrite (resistance_grid_rows n_series n_parallel rctau (Fin <$> rs) Hc).
  - by rewrite np_mean_fin, scale2_ones.
  - by apply Forall2_fmap_r.
Qed.

(** The currents of a module whose cells all have the resistance [R]. *)
Lemma uniform_cell_current n_series n_parallel (ocv : list (list num))
    (ipack : list num) (R i o : Qc) (os : list Qc) k m p :
  R <> 0%Qc -> shape2 n_series n_parallel ocv ->
  ocv !! m = Some (Fin <$> os) -> os !! p = Some o ->
  1 <= k -> ipack !! k = Some (Fin i) ->
  exists cells,
    solver n_series n_parallel ocv
      (replicate n_series (replicate n_parallel (Fin R))) ipack = Ok cells /\
    forall q oq, os !! q = Some oq ->
      at3 cells k m q
      = Some (Fin ((oq - (Qc_sum os / R - i) / (Qc_of_nat n_parallel * (1 / R)))
                   / R)).
Proof.
  intros HR Ho Hom Hop Hk Hik.
  set (r0 := replicate n_series (replicate n_parallel (Fin R))).
  assert (shape2 n_series n_parallel r0) as Hr by apply shape2_replicate.
  assert (length os = n_parallel) as Hlen.
  { rewrite <- (shape2_lookup _ _ _ _ _ Ho Hom). by rewrite length_fmap. }
  assert (0 < n_parallel) as HP.
  { apply lookup_lt_Some in Hop. lia. }
  assert (r0 !! m = Some (Fin <$> replicate n_parallel R)) as Hrm.
  { rewrite fmap_replicate. apply lookup_replicate_2.
    rewrite <- (shape2_length _ _ _ Ho). by eapply lookup_lt_Some. }
  pose proof (Qc_of_nat_not_zero n_parallel HP) as HPq.
  assert (sumB (replicate n_parallel R) <> 0%Qc) as HB.
  { rewrite sumB_uniform. intros H0.
    apply Qcmult_integral in H0 as [H0|H0]; [done |].
    assert (1 = 1 / R * R)%Qc as H1 by (by field).
    rewrite H0, Qcmult_0_l in H1. done. }
  assert (Forall (fun r => r <> 0%Qc) (replicate n_parallel R)) as HRs
    by (by apply Forall_replicate).
  pose proof (solved_row_fin n_series n_parallel ocv r0 m os
                (replicate n_parallel R) i Ho Hr Hom Hrm HRs HB) as Hrow.
  assert (sumA os (replicate n_parallel R) = Qc_sum os / R)%Qc as HA.
  { rewrite <- Hlen. by apply sumA_uniform. }
  rewrite sumB_uniform, HA in Hrow.
  destruct (solver_run n_series n_parallel ocv r0 ipack)
    as (cells & Hrun & _ & Hin & _).
  exists cells. split; [exact Hrun |]. intros q oq Hq.
  unfold at3, at2. rewrite (Hin k _ Hk Hik). cbn [mbind option_bind].
  rewrite Hrow. cbn [mbind option_bind].
  rewrite list_lookup_fmap, lookup_zip_with, Hq. simpl.
  rewrite lookup_replicate_2; [done |].
  apply lookup_lt_Some in Hq. lia.
Qed.

(** C10 (as amended).  Uniform-resistance decomposition, in exact
    arithmetic.  Let the table of fitted parameters have at least three
    columns and at least one row, and let its third column hold finite
    numbers whose sum is not zero.  Then line 72 gives every cell the
    resistance [R0], their mean.  With finite open-circuit voltages and a
    finite pack current, the difference between the currents of two cells
    of one module is [(ocv[m,p] - ocv[m,p']) / R0] at every timestep
    [k >= 1], and the deviation of a cell from the even split
    [i_pack[k] / n_parallel] is [(ocv[m,p] - mean_p ocv[m,:]) / R0], in
    which the timestep does not occur. *)
Theorem uniform_resistance_imbalance n_series n_parallel
    (rctau : table num) (ocv : list (list num)) (ipack : list num)
    (rs os : list Qc) (i o o' : Qc) (k m p p' : nat) :
  2 < tab_cols rctau ->
  Forall2 (fun row r => row !! 2 = Some (Fin r)) (tab_rows rctau) rs ->
  rs <> [] -> Qc_sum rs <> 0%Qc ->
  shape2 n_series n_parallel ocv ->
  ocv !! m = Some (Fin <$> os) -> os !! p = Some o -> os !! p' = Some o' ->
  1 <= k -> ipack !! k = Some (Fin i) ->
  exists r0 cells x x',
    resistance_grid n_series n_parallel rctau = Ok r0 /\
    r0 = replicate n_series (replicate n_parallel (Fin (Qc_mean rs))) /\
    solver n_series n_parallel ocv r0 ipack = Ok cells /\
    at3 cells k m p = Some (Fin x) /\
    at3 cells k m p' = Some (Fin x') /\
    (x - x' = (o - o') / Qc_mean rs)%Qc /\
    (x - i / Qc_of_nat n_parallel
     = (o - Qc_sum os / Qc_of_nat n_parallel) / Qc_mean rs)%Qc.
Proof.
  intros Hc Hcol Hrs Hsum Ho Hom Hop Hop' Hk Hik.
  pose proof (Qc_mean_not_zero rs Hrs Hsum) as HR.
  destruct (uniform_cell_current n_series n_parallel ocv ipack (Qc_mean rs)
              i o os k m p HR Ho Hom Hop Hk Hik) as (cells & Hrun & Hcell).
  assert (Qc_of_nat n_parallel <> 0%Qc) as HPq.
  { apply Qc_of_nat_not_zero. apply lookup_lt_Some in Hop.
    rewrite <- (shape2_lookup _ _ _ _ _ Ho Hom), length_fmap. lia. }
  eexists _, cells, _, _.
  split; [by apply resistance_grid_fin |]. split; [reflexivity |].
  split; [exact Hrun |].
  split; [by apply Hcell |]. split; [by apply Hcell |].
  split; by field.
Qed.

(** ** Counterexamples and instances *)


(** C3, counterexample: the first cell carries 10 A at timestep 1 and
    0 A at timestep 0, not 5 A; in binary64 it carries
    10.000000000000009 A at timestep 1, which is not 5 A to any
    tolerance below one half. *)
Lemma example_scenario_not_5A :
  (exists cells,
      solver 2 3 ocv_3v7 r0_10mohm (i_pack_30A 2) = Ok cells /\
      at3 cells 1 0 0 = Some (dec 10 1) /\ dec 10 1 <> dec 5 1 /\
      at3 cells 0 0 0 = Some (dec 0 1) /\ dec 0 1 <> dec 5 1) /\
  (exists cells,
      solver 2 3 ocv_3v7_b64 r0_10mohm_b64 (i_pack_b64 2 30) = Ok cells /\
      at3 cells 1 0 0 = Some 10.000000000000009%float /\
      rel_error_exceeds (1 # 2) 10.000000000000009 5 = true).
Proof.
  split.
  - destruct (solver_run 2 3 ocv_3v7 r0_10mohm (i_pack_30A 2))
      as (cells & Hrun & _ & Hin & H0).
    exists cells. split; [done |]. split; [|split; [by apply dec_neq |]].
    + unfold at3. rewrite (Hin 1 (dec 30 1)) by done.
      cbn [mbind option_bind]. apply example_grid; lia.
    + split; [|by apply dec_neq].
      unfold at3. rewrite H0 by (simpl; lia). num_compute.
  - destruct (solver_run 2 3 ocv_3v7_b64 r0_10mohm_b64 (i_pack_b64 2 30))
      as (cells & Hrun & _ & Hin & _).
    exists cells. split; [done |]. split; [|vm_compute; reflexivity].
    unfold at3. rewrite (Hin 1 30%float) by done.
    cbn [mbind option_bind]. apply example_grid_b64; lia.
Qed.

(** C4, counterexample.  In exact arithmetic the single cell carries 0 A
    at timestep 0 while the pack current is 30 A, and with resistance zero
    its current at timestep 1 is a NaN.  In binary64, at timestep 1 and
    for a pack current of 30 A, the cell of 3.7 V carries
    30.000000000000025 A with 0.01 ohm and -44408.92098500626 A with
    1e-20 ohm: not the pack current exactly, and with no bound on the
    error. *)
Lemma single_cell_fails :
  (exists cells,
      solver 1 1 [[dec 37 10]] [[dec 1 100]] (i_pack_30A 2) = Ok cells /\
      i_pack_30A 2 !! 0 = Some (dec 30 1) /\
      at3 cells 0 0 0 = Some (dec 0 1) /\ dec 0 1 <> dec 30 1) /\
  (exists cells,
      solver 1 1 [[dec 37 10]] [[dec 0 1]] (i_pack_30A 2) = Ok cells /\
      i_pack_30A 2 !! 1 = Some (dec 30 1) /\
      at3 cells 1 0 0 = Some NaN) /\
  (exists cells,
      solver 1 1 [[3.7%float]] [[0.01%float]] (i_pack_b64 2 30) = Ok cells /\
      at3 cells 1 0 0 = Some 30.000000000000025%float /\
      30.000000000000025%float <> 30%float) /\
  (exists cells,
      solver 1 1 [[3.7%float]] [[1e-20%float]] (i_pack_b64 2 30) = Ok cells /\
      at3 cells 1 0 0 = Some (-44408.92098500626)%float /\
      rel_error_exceeds 1 (-44408.92098500626) 30 = true).
Proof.
  split; [|split; [|split]].
  - destruct (solver_run 1 1 [[dec 37 10]] [[dec 1 100]] (i_pack_30A 2))
      as (cells & Hrun & _ & _ & H0).
    exists cells. split; [done |]. split; [done |].
    split; [|by apply dec_neq].
    unfold at3. rewrite H0 by (simpl; lia). num_compute.
  - destruct (solver_run 1 1 [[dec 37 10]] [[dec 0 1]] (i_pack_30A 2))
      as (cells & Hrun & _ & Hin & _).
    exists cells. split; [done |]. split; [done |].
    unfold at3. rewrite (Hin 1 (dec 30 1)) by done. vm_compute. reflexivity.
  - destruct (solver_run 1 1 [[3.7%float]] [[0.01%float]] (i_pack_b64 2 30))
      as (cells & Hrun & _ & Hin & _).
    exists cells. split; [done |].
    unfold at3. rewrite (Hin 1 30%float) by done.
    split; [vm_compute; reflexivity |].
    intros Heq. apply (f_equal Prim2SF) in Heq. vm_compute in Heq.
    discriminate Heq.
  - destruct (solver_run 1 1 [[3.7%float]] [[1e-20%float]] (i_pack_b64 2 30))
      as (cells & Hrun & _ & Hin & _).
    exists cells. split; [done |].
    unfold at3. rewrite (Hin 1 30%float) by done.
    split; vm_compute; reflexivity.
Qed.

(** C6, counterexample: a grid of negative resistances is accepted and
    solved to 10 A per cell, and a grid with a resistance of zero is
    accepted and solved to NaN; no exception is raised. *)
Lemma invalid_resistance_accepted :
  (exists q cells,
      at2 r0_negative 0 0 = Some (Fin q) /\ (q < 0)%Qc /\
      solver 2 3 ocv_3v7 r0_negative (i_pack_30A 2) = Ok cells /\
      at3 cells 1 0 0 = Some (dec 10 1)) /\
  (exists cells,
      at2 r0_one_short 0 0 = Some (Fin 0) /\
      solver 2 3 ocv_3v7 r0_one_short (i_pack_30A 2) = Ok cells /\
      at3 cells 1 0 0 = Some NaN).
Proof.
  split.
  - destruct (solver_run 2 3 ocv_3v7 r0_negative (i_pack_30A 2))
      as (cells & Hrun & _ & Hin & _).
    exists (Q2Qc (-1 # 100)), cells. split; [done |]. split; [done |].
    split; [done |].
    unfold at3. rewrite (Hin 1 (dec 30 1)) by done. num_compute.
  - destruct (solver_run 2 3 ocv_3v7 r0_one_short (i_pack_30A 2))
      as (cells & Hrun & _ & Hin & _).
    exists cells. split; [num_compute |]. split; [done |].
    unfold at3. rewrite (Hin 1 (dec 30 1)) by done. vm_compute. reflexivity.
Qed.

(** C9, counterexample: with an empty pack current the solver returns an
    empty array and [i_cells[0]] of line 83 raises IndexError; there is no
    [i_cells2]. *)
Lemma flatten_empty_raises :
  solver 2 3 ocv_3v7 r0_10mohm [] = Ok [] /\
  flatten_cells 2 3 (@nil num) [] = Raise IndexError.
Proof. split; reflexivity. Qed.

(** C10, counterexample.  In binary64, on one module of three cells at
    0.96, 0.97 and 0.99 V, a table whose third column is 0.02 ohm and a
    pack current of 30, 30 and 60 A: every cell gets 0.02 ohm, but the
    first cell's current minus the third cell's is -1.5000000000000018 A
    at timestep 1 and -1.5000000000000036 A at timestep 2, while
    [(0.96 - 0.99) / 0.02] is -1.5000000000000013; the imbalance is
    neither the quotient nor constant over time.  In exact arithmetic, a
    third column of zeros gives every cell the resistance 0 and every
    current a NaN, and a table with no rows gives every cell the
    resistance NaN. *)
Lemma uniform_resistance_fails :
  (exists cells a1 c1 a2 c2,
      resistance_grid 1 3 rctau_b64 = Ok [[0.02; 0.02; 0.02]%float] /\
      solver 1 3 ocv_spread_b64 [[0.02; 0.02; 0.02]%float] i_pack_step_b64
        = Ok cells /\
      at3 cells 1 0 0 = Some a1 /\ at3 cells 1 0 2 = Some c1 /\
      at3 cells 2 0 0 = Some a2 /\ at3 cells 2 0 2 = Some c2 /\
      (a1 - c1 = -1.5000000000000018)%float /\
      (a2 - c2 = -1.5000000000000036)%float /\
      ((0.96 - 0.99) / 0.02 = -1.5000000000000013)%float /\
      PrimFloat.eqb (a1 - c1) ((0.96 - 0.99) / 0.02) = false /\
      PrimFloat.eqb (a1 - c1) (a2 - c2) = false) /\
  (exists cells,
      resistance_grid 1 3 rctau_zero = Ok [replicate 3 (dec 0 1)] /\
      solver 1 3 ocv_spread [replicate 3 (dec 0 1)] (i_pack_30A 2) = Ok cells /\
      at3 cells 1 0 0 = Some NaN /\ at3 cells 1 0 2 = Some NaN) /\
  resistance_grid 1 3 (Table 3 [] : table num) = Ok [replicate 3 NaN].
Proof.
  split; [|split].
  - destruct (solver_run 1 3 ocv_spread_b64 [[0.02; 0.02; 0.02]%float]
                i_pack_step_b64) as (cells & Hrun & _ & Hin & _).
    pose proof (Hin 1 30%float (le_n 1) eq_refl) as H1.
    pose proof (Hin 2 60%float (le_S _ _ (le_n 1)) eq_refl) as H2.
    eexists cells, _, _, _, _.
    split; [vm_compute; reflexivity |]. split; [exact Hrun |].
    unfold at3. rewrite H1, H2.
    split; [vm_compute; reflexivity |]. split; [vm_compute; reflexivity |].
    split; [vm_compute; reflexivity |]. split; [vm_compute; reflexivity |].
    repeat split; vm_compute; reflexivity.
  - destruct (solver_run 1 3 ocv_spread [replicate 3 (dec 0 1)] (i_pack_30A 2))
      as (cells & Hrun & _ & Hin & _).
    exists cells.
    split.
    { rewrite (resistance_grid_fin 1 3 rctau_zero [0%Qc; 0%Qc]);
        [| simpl; lia | repeat constructor | done].
      assert (Qc_mean [0%Qc; 0%Qc] = Q2Qc (0 # 1)) as ->
        by (apply Qc_is_canon; reflexivity).
      reflexivity. }
    split; [exact Hrun |].
    unfold at3. rewrite (Hin 1 (dec 30 1)) by done.
    split; vm_compute; reflexivity.
  - vm_compute. reflexivity.
Qed.


(** The formulas at cell (0, 0) of the example pack at timestep 1. *)
Lemma solver_step_formulas_witness :
  exists cells,
    solver 2 3 ocv_3v7 r0_10mohm (i_pack_30A 2) = Ok cells /\
    at3 cells 1 0 0 =
    Some (fdiv (fsub (dec 37 10)
                  (fdiv (fsub (np_sum (zip_with fdiv (replicate 3 (dec 37 10))
                                         (replicate 3 (dec 1 100))))
                              (dec 30 1))
                        (np_sum (map (fdiv fone) (replicate 3 (dec 1 100))))))
               (dec 1 100)).
Proof.
  refine (proj2 (solver_step_formulas 2 3 ocv_3v7 r0_10mohm (i_pack_30A 2)
                   1 0 0 (dec 30 1) (replicate 3 (dec 37 10))
                   (replicate 3 (dec 1 100)) (dec 37 10) (dec 1 100)
                   _ _ _ _ _ _ _ _)).
  - apply shape2_replicate.
  - apply shape2_replicate.
  - lia.
  - reflexivity.
  - reflexivity.
  - reflexivity.
  - reflexivity.
  - reflexivity.
Defined.

(** Timestep 0 of the example pack under a pack current of 30 A. *)
Lemma timestep_zero_is_zero_witness :
  exists cells,
    solver 2 3 ocv_3v7 r0_10mohm (dec 30 1 :: [dec 30 1]) = Ok cells /\
    at3 cells 0 0 0 = Some (Fin 0).
Proof.
  refine (timestep_zero_is_zero 2 3 ocv_3v7 r0_10mohm (dec 30 1) [dec 30 1]
            0 0 _ _ _ _); (apply shape2_replicate || lia).
Defined.

(** Timestep 2 of a constant run and timestep 1 of a run that carries
    30 A only there. *)
Lemma solver_memoryless_witness :
  exists cells1 cells2 g,
    solver 2 3 ocv_3v7 r0_10mohm (i_pack_30A 3) = Ok cells1 /\
    solver 2 3 ocv_3v7 r0_10mohm (dec 0 1 :: dec 30 1 :: [dec 7 1]) = Ok cells2 /\
    cells1 !! 2 = Some g /\ cells2 !! 1 = Some g.
Proof.
  apply (proj1 (solver_memoryless 2 3 ocv_3v7 r0_10mohm
                  (shape2_replicate 2 3 _) (shape2_replicate 2 3 _))
           (i_pack_30A 3) (dec 0 1 :: dec 30 1 :: [dec 7 1]) 2 1 (dec 30 1));
    (lia || reflexivity).
Defined.

(** Row 5 of [i_cells2] is the cell (1, 2) of the example pack. *)
Lemma flat_index_bijection_witness :
  exists cells cells2,
    solver 2 3 ocv_3v7 r0_10mohm (i_pack_30A 2) = Ok cells /\
    flatten_cells 2 3 (i_pack_30A 2) cells = Ok cells2 /\
    length cells2 = 6 /\
    exists x, at3 cells 1 1 2 = Some x /\ at2 cells2 5 1 = Some x.
Proof.
  destruct (flat_index_bijection 2 3 ocv_3v7 r0_10mohm (i_pack_30A 2))
    as (cells & cells2 & Hrun & Hflat & Hlen & _ & Hat & _).
  - apply shape2_replicate.
  - apply shape2_replicate.
  - simpl. lia.
  - exists cells, cells2. split; [exact Hrun |]. split; [exact Hflat |].
    split; [exact Hlen |]. apply (Hat 1 2 1); simpl; lia.
Defined.

(** Cell (0, 0) of the example pack at timestep 1. *)
Lemma example_scenario_witness :
  (exists cells,
      solver 2 3 ocv_3v7 r0_10mohm (i_pack_30A 2) = Ok cells /\
      at3 cells 1 0 0 = Some (dec 10 1)) /\
  (exists cells,
      solver 2 3 ocv_3v7_b64 r0_10mohm_b64 (i_pack_b64 2 30) = Ok cells /\
      at3 cells 1 0 0 = Some 10.000000000000009%float).
Proof.
  destruct (example_scenario 2 1 0 0) as (Hexact & Hb64 & _); [lia.. |].
  split; [exact Hexact | exact Hb64].
Defined.

(** A single cell of 3.7 V and 0.01 ohm under 30 A, at timestep 1. *)
Lemma single_cell_current_witness :
  exists cells,
    solver 1 1 [[dec 37 10]] [[dec 1 100]] (i_pack_30A 2) = Ok cells /\
    at3 cells 1 0 0 = Some (dec 30 1).
Proof.
  apply (single_cell_current (Q2Qc (37 # 10)) (Q2Qc (1 # 100))
           (i_pack_30A 2) 1 (Q2Qc (30 # 1))).
  - apply Qc_neq_bool. vm_compute. reflexivity.
  - lia.
  - reflexivity.
Defined.

(** The module that holds the cell of resistance zero, at timestep 1. *)
Lemma invalid_resistance_not_detected_witness :
  exists cells x,
    solver 2 3 ocv_3v7 r0_one_short (i_pack_30A 2) = Ok cells /\
    at3 cells 1 0 1 = Some x /\ is_finite x = false.
Proof.
  destruct (invalid_resistance_not_detected 2 3 ocv_3v7 r0_one_short
              (i_pack_30A 2)) as (cells & Hrun & Hall).
  - apply shape2_replicate.
  - split; [reflexivity | repeat constructor].
  - destruct (Hall 0 0 1 1) as (x & Hx & Hfin).
    + vm_compute. apply (f_equal Some), (f_equal Fin), Qc_is_canon.
      reflexivity.
    + simpl. lia.
    + lia.
    + exists cells, x. split; [exact Hrun |]. split; [exact Hx | exact Hfin].
Defined.

(** Lines 72-81 on a table whose series resistances are 0.01 and 0.03
    ohm: every cell gets 0.02 ohm, the cell of 0.96 V carries 1.5 A less
    than the cell of 0.99 V, and 2/3 A less than a third of the pack
    current. *)
Lemma uniform_resistance_imbalance_witness :
  exists cells x x',
    resistance_grid 1 3 rctau_example = Ok [replicate 3 (dec 2 100)] /\
    solver 1 3 ocv_spread [replicate 3 (dec 2 100)] (i_pack_30A 2)
      = Ok cells /\
    at3 cells 1 0 0 = Some (Fin x) /\
    at3 cells 1 0 2 = Some (Fin x') /\
    (x - x')%Qc = Q2Qc (-3 # 2) /\
    (x - Q2Qc (30 # 1) / Qc_of_nat 3)%Qc = Q2Qc (-2 # 3).
Proof.
  destruct (uniform_resistance_imbalance 1 3 rctau_example ocv_spread
              (i_pack_30A 2) [Q2Qc (1 # 100); Q2Qc (3 # 100)]
              [Q2Qc (96 # 100); Q2Qc (97 # 100); Q2Qc (99 # 100)]
              (Q2Qc (30 # 1)) (Q2Qc (96 # 100)) (Q2Qc (99 # 100)) 1 0 0 2)
    as (r0 & cells & x & x' & Hr & Hr0 & Hs & Hx & Hx' & Hd & He).
  - simpl. lia.
  - repeat constructor.
  - discriminate.
  - apply Qc_neq_bool. vm_compute. reflexivity.
  - split; [reflexivity | repeat constructor].
  - reflexivity.
  - reflexivity.
  - reflexivity.
  - lia.
  - reflexivity.
  - assert (Qc_mean [Q2Qc (1 # 100); Q2Qc (3 # 100)] = Q2Qc (2 # 100)) as Hm
      by (apply Qc_is_canon; reflexivity).
    rewrite Hm in Hr0, Hd, He. subst r0.
    exists cells, x, x'. split; [exact Hr |]. split; [exact Hs |].
    split; [exact Hx |]. split; [exact Hx' |].
    split; [rewrite Hd | rewrite He]; apply Qc_is_canon; reflexivity.
Defined.

(** The static grids of the example pack after its loop. *)
Lemma static_grids_unchanged_witness :
  exists st',
    solver_loop 2 3 (Store zi_example ocv_3v7 r0_10mohm (i_pack_30A 3) [] None)
      = Ok st' /\
    zi st' = zi_example /\ ocv_cells st' = ocv_3v7 /\ r0_cells st' = r0_10mohm.
Proof.
  apply (proj2 (static_grids_unchanged 2 3
                  (Store zi_example ocv_3v7 r0_10mohm (i_pack_30A 3) [] None)
                  (shape2_replicate 2 3 _) (shape2_replicate 2 3 _))).
Defined.

(** * Further properties of the pack calculation *)

(** ** The loop as a whole *)

Section LoopClosedForm.
Context {F : Type} `{Arith F}.
Variables n_series n_parallel : nat.
Implicit Types (st : store F).

Lemma for_each_app {S} (body : nat -> S -> result S) ks1 ks2 s :
  for_each body (ks1 ++ ks2) s = s' ← for_each body ks1 s; for_each body ks2 s'.
Proof.
  revert s. induction ks1 as [|k ks1 IH]; intros s; simpl; [done |].
  destruct (body k s) as [s'|e]; simpl; [apply IH | done].
Qed.

(** What the last iteration leaves in [v_modules]. *)
Lemma solver_loop_voltages st st' :
  solver_loop n_series n_parallel st = Ok st' ->
  v_modules st' =
  last_voltages (ocv_cells st) (r0_cells st) (i_pack st) (v_modules st).
Proof.
  unfold solver_loop, range. intros Hrun.
  destruct (i_pack st) as [|i0 [|i1 rest]] eqn:Hip.
  - simpl in Hrun. by injection Hrun as <-.
  - simpl in Hrun. by injection Hrun as <-.
  - assert (length (i0 :: i1 :: rest) - 1 = S (length rest)) as Hn
      by (simpl; lia).
    rewrite Hn, seq_S, for_each_app in Hrun.
    destruct (loop_run n_series n_parallel (length rest) 1
                (alloc_cells n_series n_parallel st))
      as (st1 & Hrun1 & (Hz & Ho & Hr & Hp) & Hl & _).
    { right. simpl. rewrite Hip. simpl. lia. }
    { simpl. unfold zeros3. apply length_replicate. }
    rewrite Hrun1 in Hrun. cbn [mbind result_bind for_each] in Hrun.
    simpl in Hz, Ho, Hr, Hp, Hl.
    destruct (lookup_lt_is_Some_2 (i0 :: i1 :: rest) (1 + length rest))
      as [ik Hik]; [simpl; lia |].
    rewrite (loop_body_ok _ _ _ _ ik) in Hrun.
    + cbn [mbind result_bind] in Hrun. injection Hrun as <-.
      cbn [v_modules].
      rewrite Ho, Hr. unfold last_voltages.
      rewrite last_lookup.
      replace (pred (length (i0 :: i1 :: rest))) with (1 + length rest)
        by (simpl; lia).
      by rewrite Hik.
    + by rewrite Hp, Hip.
    + rewrite Hl. unfold zeros3. rewrite length_replicate, Hip. simpl. lia.
Qed.

Lemma solver_loop_solved st :
  solver_loop n_series n_parallel st = Ok (solved_store n_series n_parallel st).
Proof.
  destruct (solver_loop_run n_series n_parallel st)
    as (st' & Hrun & (Hz & Ho & Hr & Hp) & Hl & Hin & H0).
  pose proof (solver_loop_voltages st st' Hrun) as Hv.
  rewrite Hrun. f_equal.
  destruct st' as [z' o' r' p' c' v']. simpl in *. subst z' o' r' p' v'.
  unfold solved_store. f_equal.
  apply list_eq. intros k. unfold solved_cells.
  destruct (i_pack st) as [|i0 rest] eqn:Hip.
  - apply nil_length_inv in Hl. by subst c'.
  - destruct k as [|k]; [apply H0; simpl; lia |].
    simpl. change (map ?f ?l) with (f <$> l). rewrite list_lookup_fmap.
    destruct (rest !! k) as [ik|] eqn:Hk; simpl.
    + apply Hin; [lia | done].
    + apply lookup_ge_None. apply lookup_ge_None in Hk. simpl in Hl. lia.
Qed.

(** X1.  The loop is a map over the pack current: it ends in the store
    whose [i_cells] is the grid of zeros of timestep 0 followed by one
    solved grid for each later entry of [i_pack], and whose [v_modules]
    holds the voltages of the last timestep.  With fewer than two
    timesteps no iteration runs and [v_modules] is left as it was. *)
Theorem solver_loop_closed_form st :
  shape2 n_series n_parallel (ocv_cells st) ->
  shape2 n_series n_parallel (r0_cells st) ->
  solver_loop n_series n_parallel st = Ok (solved_store n_series n_parallel st).
Proof. intros _ _. apply solver_loop_solved. Qed.

(** X2.  Running the loop again on the store it produced changes
    nothing: the loop reads only the static grids and [i_pack], and
    overwrites what an earlier run left. *)
Theorem solver_loop_idempotent st st' :
  shape2 n_series n_parallel (ocv_cells st) ->
  shape2 n_series n_parallel (r0_cells st) ->
  solver_loop n_series n_parallel st = Ok st' ->
  solver_loop n_series n_parallel st' = Ok st'.
Proof.
  intros _ _ Hrun.
  rewrite solver_loop_solved in Hrun. injection Hrun as <-.
  rewrite solver_loop_solved. f_equal.
  unfold solved_store. simpl. f_equal.
  unfold last_voltages. by destruct (i_pack st) as [|i0 [|i1 rest]].
Qed.
End LoopClosedForm.

Section SolverShape.
Context {F : Type} `{Arith F}.
Variables n_series n_parallel : nat.

Lemma solver_solved ocv (r0 : list (list F)) ipack :
  solver n_series n_parallel ocv r0 ipack =
  Ok (solved_cells n_series n_parallel ocv r0 ipack).
Proof. unfold solver. by rewrite solver_loop_solved. Qed.

(** X3.  On grids of the shape of the pack the solver returns, for a pack
    current of any length, an array of shape
    [(len(i_pack), n_series, n_parallel)]. *)
Theorem solver_output_shape ocv (r0 : list (list F)) ipack :
  shape2 n_series n_parallel ocv -> shape2 n_series n_parallel r0 ->
  exists cells,
    solver n_series n_parallel ocv r0 ipack = Ok cells /\
    shape3 (length ipack) n_series n_parallel cells.
Proof.
  intros Ho Hr. eexists. split; [apply solver_solved |].
  eapply solver_shape; [exact Ho | exact Hr | apply solver_solved].
Qed.

(** X4.  Modules do not interact.  The currents of a module at a timestep
    are fixed by its own rows of [ocv_cells] and [r0_cells] and by the pack
    current of that timestep: two modules with the same rows, in one pack or
    in two packs with different numbers of modules, carry the same
    currents. *)
Theorem module_locality n_series' ocv (r0 : list (list F)) ocv'
    (r0' : list (list F)) ipack ipack' k k' m m' ik orow rrow :
  shape2 n_series n_parallel ocv -> shape2 n_series n_parallel r0 ->
  shape2 n_series' n_parallel ocv' -> shape2 n_series' n_parallel r0' ->
  1 <= k -> 1 <= k' -> ipack !! k = Some ik -> ipack' !! k' = Some ik ->
  ocv !! m = Some orow -> ocv' !! m' = Some orow ->
  r0 !! m = Some rrow -> r0' !! m' = Some rrow ->
  exists cells cells' row,
    solver n_series n_parallel ocv r0 ipack = Ok cells /\
    solver n_series' n_parallel ocv' r0' ipack' = Ok cells' /\
    cells !! k ≫= (.!! m) = Some row /\
    cells' !! k' ≫= (.!! m') = Some row.
Proof.
  intros Ho Hr Ho' Hr' Hk Hk' Hik Hik' Hom Hom' Hrm Hrm'.
  destruct (solver_run n_series n_parallel ocv r0 ipack)
    as (cells & Hrun & _ & Hin & _).
  destruct (solver_run n_series' n_parallel ocv' r0' ipack')
    as (cells' & Hrun' & _ & Hin' & _).
  eexists cells, cells', _. split; [done |]. split; [done |].
  rewrite (Hin k ik Hk Hik), (Hin' k' ik Hk' Hik'). cbn [mbind option_bind].
  rewrite (solved_grid_row _ _ _ _ _ _ _ _ Ho Hr Hom Hrm).
  rewrite (solved_grid_row _ _ _ _ _ _ _ _ Ho' Hr' Hom' Hrm').
  done.
Qed.

(** X5.  Every current trace handed on to the cell model starts at zero:
    the first entry of every row of [i_cells2] is 0, whatever [i_pack[0]]
    is. *)
Theorem traces_start_at_zero ocv (r0 : list (list F)) ipack c :
  shape2 n_series n_parallel ocv -> shape2 n_series n_parallel r0 ->
  0 < length ipack -> c < n_series * n_parallel ->
  exists cells cells2,
    solver n_series n_parallel ocv r0 ipack = Ok cells /\
    flatten_cells n_series n_parallel ipack cells = Ok cells2 /\
    at2 cells2 c 0 = Some fzero.
Proof.
  intros Ho Hr HT Hc.
  destruct (solver_run n_series n_parallel ocv r0 ipack)
    as (cells & Hrun & _ & _ & H0).
  pose proof (solver_shape _ _ _ _ _ _ Ho Hr Hrun) as Hs.
  destruct (flatten_cells_run n_series n_parallel ipack cells Hs HT)
    as (cells2 & Hflat & _ & _ & Hat).
  exists cells, cells2. split; [done |]. split; [done |].
  destruct (flat_index_surj n_series n_parallel c Hc) as (Hm & Hp & Heq).
  rewrite Heq, Hat by done.
  unfold at3. rewrite (H0 HT). cbn [mbind option_bind].
  by apply zeros2_at2.
Qed.
End SolverShape.

(** ** Circuit laws, in exact arithmetic *)

Section CircuitLaws.
Variables n_series n_parallel : nat.
Implicit Types (ocv : list (list num)) (ipack : list num).

(** The current of every cell of a module whose data are finite. *)
Lemma solver_cell_fin ocv (r0 : list (list num)) ipack m os rs :
  shape2 n_series n_parallel ocv -> shape2 n_series n_parallel r0 ->
  ocv !! m = Some (Fin <$> os) -> r0 !! m = Some (Fin <$> rs) ->
  Forall (fun r => r <> 0%Qc) rs -> sumB rs <> 0%Qc ->
  exists cells,
    solver n_series n_parallel ocv r0 ipack = Ok cells /\
    forall k i p o r,
      1 <= k -> ipack !! k = Some (Fin i) ->
      os !! p = Some o -> rs !! p = Some r ->
      at3 cells k m p = Some (Fin ((o - (sumA os rs - i) / sumB rs) / r)).
Proof.
  intros Ho Hr Hom Hrm Hrs HB.
  destruct (solver_run n_series n_parallel ocv r0 ipack)
    as (cells & Hrun & _ & Hin & _).
  exists cells. split; [done |].
  intros k i p o r Hk Hik Hop Hrp.
  unfold at3, at2. rewrite (Hin k (Fin i) Hk Hik). cbn [mbind option_bind].
  rewrite (solved_row_fin n_series n_parallel ocv r0 m os rs i) by done.
  cbn [mbind option_bind].
  by rewrite list_lookup_fmap, lookup_zip_with, Hop, Hrp.
Qed.

Lemma lookup_not_zero (rs : list Qc) p r :
  Forall (fun r => r <> 0%Qc) rs -> rs !! p = Some r -> r <> 0%Qc.
Proof. intros Hrs Hp. rewrite Forall_lookup in Hrs. eauto. Qed.

(** X6.  Kirchhoff's voltage law in a module.  At every timestep
    [k >= 1], in a module with finite data, resistances that are not zero
    and conductances that do not sum to zero, every cell sits at the module
    voltage of line 80: [ocv[m,p] - i_cells[k,m,p] * r0[m,p] = v_modules[m]]
    for all [p]. *)
Theorem equal_terminal_voltage ocv (r0 : list (list num)) ipack k m os rs i :
  shape2 n_series n_parallel ocv -> shape2 n_series n_parallel r0 ->
  1 <= k -> ipack !! k = Some (Fin i) ->
  ocv !! m = Some (Fin <$> os) -> r0 !! m = Some (Fin <$> rs) ->
  Forall (fun r => r <> 0%Qc) rs -> sumB rs <> 0%Qc ->
  exists cells v,
    solver n_series n_parallel ocv r0 ipack = Ok cells /\
    module_voltages ocv r0 (Fin i) !! m = Some (Fin v) /\
    forall p o r,
      os !! p = Some o -> rs !! p = Some r ->
      exists x, at3 cells k m p = Some (Fin x) /\ (o - x * r = v)%Qc.
Proof.
  intros Ho Hr Hk Hik Hom Hrm Hrs HB.
  destruct (solver_cell_fin ocv r0 ipack m os rs Ho Hr Hom Hrm Hrs HB)
    as (cells & Hrun & Hcell).
  exists cells, ((sumA os rs - i) / sumB rs)%Qc. split; [done |]. split.
  - rewrite (module_voltages_lookup _ _ _ _ _ _ Hom Hrm).
    by rewrite module_voltage_fin.
  - intros p o r Hop Hrp. eexists. split; [by eapply Hcell |].
    pose proof (lookup_not_zero rs p r Hrs Hrp). by field.
Qed.

Lemma sumA_equal_ocv (o : Qc) (rs : list Qc) :
  Forall (fun r => r <> 0%Qc) rs ->
  sumA (replicate (length rs) o) rs = (o * sumB rs)%Qc.
Proof.
  induction 1 as [|r rs Hr _ IH].
  - unfold sumA, sumB. simpl. ring.
  - change (sumA (replicate (length (r :: rs)) o) (r :: rs))
      with (o / r + sumA (replicate (length rs) o) rs)%Qc.
    change (sumB (r :: rs)) with (Qc_recip r + sumB rs)%Qc.
    rewrite IH. unfold Qc_recip. by field.
Qed.

(** X7.  Current divider.  When the cells of a module have the same
    open-circuit voltage, the pack current divides among them in
    proportion to their conductances, whatever that voltage is:
    [i_cells[k,m,p] = i_pack[k] * (1/r0[m,p]) / sum_q (1/r0[m,q])]. *)
Theorem current_divider ocv (r0 : list (list num)) ipack k m (o : Qc) rs i p r :
  shape2 n_series n_parallel ocv -> shape2 n_series n_parallel r0 ->
  1 <= k -> ipack !! k = Some (Fin i) ->
  ocv !! m = Some (replicate n_parallel (Fin o)) ->
  r0 !! m = Some (Fin <$> rs) ->
  Forall (fun r => r <> 0%Qc) rs -> sumB rs <> 0%Qc ->
  rs !! p = Some r ->
  exists cells,
    solver n_series n_parallel ocv r0 ipack = Ok cells /\
    at3 cells k m p = Some (Fin (i * conductance_share rs r)).
Proof.
  intros Ho Hr Hk Hik Hom Hrm Hrs HB Hrp.
  assert (length rs = n_parallel) as Hlen.
  { rewrite <- (shape2_lookup _ _ _ _ _ Hr Hrm). by rewrite length_fmap. }
  assert (ocv !! m = Some (Fin <$> replicate (length rs) o)) as Hom'.
  { by rewrite Hom, fmap_replicate, Hlen. }
  destruct (solver_cell_fin ocv r0 ipack m _ rs Ho Hr Hom' Hrm Hrs HB)
    as (cells & Hrun & Hcell).
  exists cells. split; [done |].
  rewrite (Hcell k i p o r Hk Hik); [|apply lookup_replicate_2|done].
  - rewrite sumA_equal_ocv by done. do 2 f_equal.
    pose proof (lookup_not_zero rs p r Hrs Hrp).
    unfold conductance_share, Qc_recip. by field.
  - by eapply lookup_lt_Some.
Qed.

(** X8.  Load steps are shared by conductance.  Between two timesteps
    [k, j >= 1] the current of a cell changes by the change of the pack
    current times the cell's share of the module's conductance; the
    open-circuit voltages do not enter. *)
Theorem current_change_by_share ocv (r0 : list (list num)) ipack k j m os rs
    i i' p o r :
  shape2 n_series n_parallel ocv -> shape2 n_series n_parallel r0 ->
  1 <= k -> 1 <= j -> ipack !! k = Some (Fin i) -> ipack !! j = Some (Fin i') ->
  ocv !! m = Some (Fin <$> os) -> r0 !! m = Some (Fin <$> rs) ->
  Forall (fun r => r <> 0%Qc) rs -> sumB rs <> 0%Qc ->
  os !! p = Some o -> rs !! p = Some r ->
  exists cells x x',
    solver n_series n_parallel ocv r0 ipack = Ok cells /\
    at3 cells k m p = Some (Fin x) /\ at3 cells j m p = Some (Fin x') /\
    (x - x' = (i - i') * conductance_share rs r)%Qc.
Proof.
  intros Ho Hr Hk Hj Hik Hij Hom Hrm Hrs HB Hop Hrp.
  destruct (solver_cell_fin ocv r0 ipack m os rs Ho Hr Hom Hrm Hrs HB)
    as (cells & Hrun & Hcell).
  eexists cells, _, _. split; [done |].
  split; [by apply (Hcell k i p o r) |].
  split; [by apply (Hcell j i' p o r) |].
  pose proof (lookup_not_zero rs p r Hrs Hrp).
  unfold conductance_share, Qc_recip. by field.
Qed.

(** X9.  Positive resistances exclude the division by zero.  In exact
    arithmetic, in a module with at least one cell whose open-circuit
    voltages are finite and whose resistances are finite and positive,
    every current is a finite number at every timestep with a finite pack
    current, whatever the other modules hold (a zero resistance there,
    say).  Binary64 does not inherit this, because its operations
    overflow: a single cell of 2^1023 V and 0.25 ohm under 32 A gets the
    current minus infinity. *)
Theorem positive_module_is_finite ocv (r0 : list (list num)) ipack m os rs :
  shape2 n_series n_parallel ocv -> shape2 n_series n_parallel r0 ->
  ocv !! m = Some (Fin <$> os) -> r0 !! m = Some (Fin <$> rs) ->
  Forall (fun r => (0 < r)%Qc) rs ->
  (exists cells,
      solver n_series n_parallel ocv r0 ipack = Ok cells /\
      forall k i p,
        ipack !! k = Some (Fin i) -> p < n_parallel ->
        exists x, at3 cells k m p = Some (Fin x)) /\
  (exists cells,
      solver 1 1 [[0x1p+1023%float]] [[0.25%float]] [32; 32]%float = Ok cells /\
      at3 cells 1 0 0 = Some neg_infinity).
Proof.
  intros Ho Hr Hom Hrm Hpos. split.
  - assert (length os = n_parallel) as Hlo.
    { rewrite <- (shape2_lookup _ _ _ _ _ Ho Hom). by rewrite length_fmap. }
    assert (length rs = n_parallel) as Hlr.
    { rewrite <- (shape2_lookup _ _ _ _ _ Hr Hrm). by rewrite length_fmap. }
    destruct (solver_run n_series n_parallel ocv r0 ipack)
      as (cells & Hrun & _ & Hin & H0).
    exists cells. split; [done |]. intros k i p Hik Hp.
    destruct k as [|k].
    + exists 0%Qc. unfold at3.
      rewrite H0 by (apply lookup_lt_Some in Hik; lia).
      cbn [mbind option_bind].
      refine (zeros2_at2 (F:=num) n_series n_parallel m p _ Hp).
      rewrite <- (shape2_length _ _ _ Ho). by eapply lookup_lt_Some.
    + destruct (positive_resistances_valid rs) as [Hrs HB]; [|done |].
      { intros ->. simpl in Hlr. lia. }
      destruct (lookup_lt_is_Some_2 os p) as [o Hop]; [lia |].
      destruct (lookup_lt_is_Some_2 rs p) as [r Hrp]; [lia |].
      eexists. unfold at3, at2.
      rewrite (Hin (S k) (Fin i)) by (done || lia). cbn [mbind option_bind].
      rewrite (solved_row_fin n_series n_parallel ocv r0 m os rs i) by done.
      cbn [mbind option_bind].
      by rewrite list_lookup_fmap, lookup_zip_with, Hop, Hrp.
  - destruct (solver_run 1 1 [[0x1p+1023%float]] [[0.25%float]]
                [32; 32]%float) as (cells & Hrun & _ & Hin & _).
    exists cells. split; [exact Hrun |].
    unfold at3. rewrite (Hin 1 32%float) by done.
    vm_compute. reflexivity.
Qed.

End CircuitLaws.

(** ** Lines 71-83 as a whole *)

Section PackCalculation.
Context {F : Type} `{Arith F}.
Variables n_series n_parallel : nat.
Variable np_interp : list F -> list F -> F -> F.

Lemma interp_grid_ok (x : list (list F)) xp fp :
  xp <> [] -> length fp = length xp ->
  interp_grid np_interp x xp fp = Ok (map (map (np_interp xp fp)) x).
Proof.
  intros Hxp Hlen. unfold interp_grid. destruct xp; [done |].
  by rewrite decide_True.
Qed.

Lemma interp_grid_raises (x : list (list F)) xp fp :
  xp = [] \/ length fp <> length xp ->
  interp_grid np_interp x xp fp = Raise ValueError.
Proof.
  intros Hbad. unfold interp_grid. destruct xp; [done |].
  destruct Hbad as [|Hlen]; [done |]. by rewrite decide_False.
Qed.

Lemma reverse_not_nil {A} (l : list A) : l <> [] -> reverse l <> [].
Proof.
  intros Hl Hr. apply Hl, length_zero_iff_nil.
  by rewrite <- length_reverse, Hr.
Qed.

Lemma map2_shape {A B} (f : A -> B) rows cols (a : list (list A)) :
  shape2 rows cols a -> shape2 rows cols (map (map f) a).
Proof.
  intros [Hl Hall]. split; [by rewrite length_map |].
  apply Forall_fmap. eapply Forall_impl; [exact Hall |].
  intros row Hrow. simpl. by rewrite length_map.
Qed.

(** With sample points that [np.interp] accepts, a table of at least three
    columns and at least one timestep, the script runs the solver on the
    grids of lines 71-75 and flattens what it returns. *)
Lemma pack_calculation_run zi0 z_pts v_pts (rctau : table F) current col :
  shape2 n_series n_parallel zi0 ->
  z_pts <> [] -> length v_pts = length z_pts ->
  2 < tab_cols rctau ->
  Forall2 (fun row x => row !! 2 = Some x) (tab_rows rctau) col ->
  current <> [] ->
  let ocv := map (map (np_interp (reverse z_pts) (reverse v_pts))) zi0 in
  let r0 := scale2 (np_mean col) (ones2 n_series n_parallel) in
  let ipack := map (fun x => fmul x (of_nat 3)) current in
  shape2 n_series n_parallel ocv /\ shape2 n_series n_parallel r0 /\
  exists cells2,
    pack_calculation n_series n_parallel np_interp zi0 z_pts v_pts rctau current
    = Ok (solved_store n_series n_parallel (Store zi0 ocv r0 ipack [] None),
          cells2) /\
    flatten_cells n_series n_parallel ipack
      (solved_cells n_series n_parallel ocv r0 ipack) = Ok cells2.
Proof.
  intros Hzi Hz Hv Hc Hcol Hcur ocv r0 ipack.
  assert (shape2 n_series n_parallel ocv) as Ho by (by apply map2_shape).
  assert (shape2 n_series n_parallel r0) as Hr.
  { apply map2_shape, shape2_replicate. }
  split; [done |]. split; [done |].
  unfold pack_calculation.
  rewrite interp_grid_ok
    by (by apply reverse_not_nil || by rewrite !length_reverse).
  cbn [mbind result_bind].
  rewrite (resistance_grid_rows n_series n_parallel rctau col Hc Hcol).
  cbn [mbind result_bind].
  fold ocv r0 ipack. rewrite solver_loop_solved. cbn [mbind result_bind].
  assert (shape3 (length ipack) n_series n_parallel
            (solved_cells n_series n_parallel ocv r0 ipack)) as Hs.
  { eapply solver_shape; [exact Ho | exact Hr | apply solver_solved]. }
  destruct (flatten_cells_run n_series n_parallel ipack _ Hs)
    as (cells2 & Hflat & _).
  { unfold ipack. rewrite length_map. destruct current; [done | simpl; lia]. }
  exists cells2. change (i_cells (solved_store _ _ _)) with
    (solved_cells n_series n_parallel ocv r0 ipack).
  by rewrite Hflat.
Qed.

(** X10.  What lines 71-83 raise, for a two-dimensional table [rctau].
    Sample points that [np.interp] rejects (none at all, or as many
    voltages as there are not states of charge) raise ValueError on
    line 71.  Otherwise a table with fewer than three columns raises
    IndexError on line 72, whether it has rows or not; otherwise an empty
    current raises IndexError on line 83; and in every other case the
    calculation returns: [zi] is unchanged, [ocv_cells] is the
    interpolation of [zi] at the reversed sample points, [r0_cells] is the
    mean of the third column in every entry, [i_cells] is what the solver
    gives for these grids and three times the current, and [i_cells2] is
    its flattening. *)
Theorem pack_calculation_outcome zi0 z_pts v_pts (rctau : table F) current :
  shape2 n_series n_parallel zi0 -> table_wf rctau ->
  (z_pts = [] \/ length v_pts <> length z_pts ->
   pack_calculation n_series n_parallel np_interp zi0 z_pts v_pts rctau current
   = Raise ValueError) /\
  (z_pts <> [] -> length v_pts = length z_pts -> tab_cols rctau <= 2 ->
   pack_calculation n_series n_parallel np_interp zi0 z_pts v_pts rctau current
   = Raise IndexError) /\
  (z_pts <> [] -> length v_pts = length z_pts -> 2 < tab_cols rctau ->
   current = [] ->
   pack_calculation n_series n_parallel np_interp zi0 z_pts v_pts rctau current
   = Raise IndexError) /\
  (z_pts <> [] -> length v_pts = length z_pts -> 2 < tab_cols rctau ->
   current <> [] ->
   exists col st cells2,
     Forall2 (fun row x => row !! 2 = Some x) (tab_rows rctau) col /\
     pack_calculation n_series n_parallel np_interp zi0 z_pts v_pts rctau
       current = Ok (st, cells2) /\
     zi st = zi0 /\
     ocv_cells st
       = map (map (np_interp (reverse z_pts) (reverse v_pts))) zi0 /\
     r0_cells st = scale2 (np_mean col) (ones2 n_series n_parallel) /\
     i_pack st = map (fun x => fmul x (of_nat 3)) current /\
     solver n_series n_parallel (ocv_cells st) (r0_cells st) (i_pack st)
       = Ok (i_cells st) /\
     flatten_cells n_series n_parallel (i_pack st) (i_cells st) = Ok cells2).
Proof.
  intros Hzi Hwf. split; [|split; [|split]].
  - intros Hbad. unfold pack_calculation. rewrite interp_grid_raises; [done |].
    destruct Hbad as [->|Hlen]; [by left | right].
    by rewrite !length_reverse.
  - intros Hz Hv Hc. unfold pack_calculation.
    rewrite interp_grid_ok
      by (by apply reverse_not_nil || by rewrite !length_reverse).
    cbn [mbind result_bind]. unfold resistance_grid.
    by rewrite (column_too_few 2 rctau Hc).
  - intros Hz Hv Hc ->.
    destruct (table_column_exists 2 rctau Hwf Hc) as [col Hcol].
    unfold pack_calculation.
    rewrite interp_grid_ok
      by (by apply reverse_not_nil || by rewrite !length_reverse).
    cbn [mbind result_bind].
    rewrite (resistance_grid_rows n_series n_parallel rctau col Hc Hcol).
    cbn [mbind result_bind].
    by rewrite solver_loop_solved.
  - intros Hz Hv Hc Hcur.
    destruct (table_column_exists 2 rctau Hwf Hc) as [col Hcol].
    destruct (pack_calculation_run zi0 z_pts v_pts rctau current col
                Hzi Hz Hv Hc Hcol Hcur) as (_ & _ & cells2 & Hrun & Hflat).
    eexists col, _, cells2. split; [done |]. split; [exact Hrun |].
    split; [done |]. split; [done |]. split; [done |]. split; [done |].
    split; [apply solver_solved | exact Hflat].
Qed.
End PackCalculation.

Section ScriptCurrents.
Variables n_series n_parallel : nat.
Variable np_interp : list num -> list num -> num -> num.

(** X11.  Each module carries three times the cell's discharge current, in
    exact arithmetic.  Let [np.interp] accept the sample points and give
    finite open-circuit voltages, let the table have at least three
    columns and at least one row, with finite numbers in its third column
    whose sum is not zero, and let a module have at least one cell.  Then
    the currents that the script solves for a module at a timestep
    [k >= 1] add up to [3 * ecm.current[k]]. *)
Theorem script_module_current zi0 z_pts v_pts (rctau : table num) current
    (rs : list Qc) (c : Qc) (os : list Qc) k m :
  shape2 n_series n_parallel zi0 -> 0 < n_parallel ->
  z_pts <> [] -> length v_pts = length z_pts ->
  2 < tab_cols rctau ->
  Forall2 (fun row r => row !! 2 = Some (Fin r)) (tab_rows rctau) rs ->
  rs <> [] -> Qc_sum rs <> 0%Qc ->
  (map (np_interp (reverse z_pts) (reverse v_pts)) <$> zi0) !! m
    = Some (Fin <$> os) ->
  1 <= k -> current !! k = Some (Fin c) ->
  exists st cells2 row,
    pack_calculation n_series n_parallel np_interp zi0 z_pts v_pts rctau current
      = Ok (st, cells2) /\
    i_cells st !! k ≫= (.!! m) = Some row /\
    np_sum row = Fin (c * Qc_of_nat 3).
Proof.
  intros Hzi HP Hz Hv Hc Hcol Hrs Hsum Hom Hk Hck.
  assert (current <> []) as Hcur by (intros ->; done).
  pose proof (Qc_mean_not_zero rs Hrs Hsum) as HR.
  destruct (pack_calculation_run n_series n_parallel np_interp zi0 z_pts v_pts
              rctau current (Fin <$> rs) Hzi Hz Hv Hc)
    as (Ho & Hr & cells2 & Hrun & _); [by apply Forall2_fmap_r | done |].
  rewrite np_mean_fin, scale2_ones in Hrun, Hr by done.
  set (R := Qc_mean rs) in *.
  set (ocv := map (map (np_interp (reverse z_pts) (reverse v_pts))) zi0) in *.
  set (r0 := replicate n_series (replicate n_parallel (Fin R))) in *.
  set (ipack := map (fun x => fmul x (of_nat 3)) current) in *.
  assert (ipack !! k = Some (Fin (c * Qc_of_nat 3))) as Hik.
  { unfold ipack. change (map ?f ?l) with (f <$> l).
    by rewrite list_lookup_fmap, Hck. }
  assert (length os = n_parallel) as Hlen.
  { rewrite <- (shape2_lookup _ _ _ _ _ Ho Hom). by rewrite length_fmap. }
  assert (r0 !! m = Some (Fin <$> replicate n_parallel R)) as Hrm.
  { rewrite fmap_replicate. apply lookup_replicate_2.
    rewrite <- (shape2_length _ _ _ Ho). by eapply lookup_lt_Some. }
  assert (Forall (fun r => r <> 0%Qc) (replicate n_parallel R)) as HRs
    by (by apply Forall_replicate).
  assert (sumB (replicate n_parallel R) <> 0%Qc) as HB.
  { rewrite sumB_uniform. intros H0.
    apply Qcmult_integral in H0 as [H0|H0];
      [by apply (Qc_of_nat_not_zero n_parallel HP) |].
    assert (1 = 1 / R * R)%Qc as H1 by (by field).
    rewrite H0, Qcmult_0_l in H1. done. }
  destruct (solver_run n_series n_parallel ocv r0 ipack)
    as (cells & Hsol & _ & Hin & _).
  rewrite solver_solved in Hsol. injection Hsol as Hsol.
  eexists _, cells2, _. split; [exact Hrun |].
  change (i_cells (solved_store _ _ _)) with
    (solved_cells n_series n_parallel ocv r0 ipack).
  rewrite Hsol, (Hin k _ Hk Hik). cbn [mbind option_bind].
  split.
  - apply (solved_row_fin n_series n_parallel ocv r0 m os
             (replicate n_parallel R)); done.
  - rewrite np_sum_fin, currents_sum; [|by rewrite length_replicate | done].
    f_equal. by apply node_balance.
Qed.

Lemma num_div_nan (x : num) : num_div x NaN = NaN.
Proof. by destruct x. Qed.

(** X12.  A table with columns but no rows is not an error.  When
    [np.interp] accepts the sample points and [rctau] has at least three
    columns and no rows, the mean of line 72 is a NaN, nothing is raised,
    and every current that the script solves at a timestep [k >= 1] is a
    NaN.  Binary64 gives the same: the mean is [0 / 0], and the currents
    of the example pack with that resistance are NaN. *)
Theorem empty_table_gives_nan zi0 z_pts v_pts cols current k m p :
  shape2 n_series n_parallel zi0 ->
  z_pts <> [] -> length v_pts = length z_pts -> 2 < cols ->
  1 <= k < length current -> m < n_series -> p < n_parallel ->
  (exists st cells2,
      pack_calculation n_series n_parallel np_interp zi0 z_pts v_pts
        (Table cols []) current = Ok (st, cells2) /\
      at2 (r0_cells st) m p = Some NaN /\
      at3 (i_cells st) k m p = Some NaN) /\
  (exists cells,
      resistance_grid 2 3 (Table 3 [] : table float)
        = Ok (replicate 2 (replicate 3 nan)) /\
      solver 2 3 ocv_3v7_b64 (replicate 2 (replicate 3 nan)) (i_pack_b64 2 30)
        = Ok cells /\
      at3 cells 1 0 0 = Some nan).
Proof.
  intros Hzi Hz Hv Hc Hk Hm Hp. split.
  - assert (current <> []) as Hcur by (intros ->; simpl in Hk; lia).
    destruct (pack_calculation_run n_series n_parallel np_interp zi0 z_pts
                v_pts (Table cols []) current [] Hzi Hz Hv Hc)
      as (Ho & Hr & cells2 & Hrun & _); [constructor | done |].
    change (np_mean []) with NaN in Hrun, Hr. rewrite scale2_ones in Hrun, Hr.
    set (ocv := map (map (np_interp (reverse z_pts) (reverse v_pts))) zi0) in *.
    set (r0 := replicate n_series (replicate n_parallel NaN)) in *.
    set (ipack := map (fun x => fmul x (of_nat 3)) current) in *.
    destruct (lookup_lt_is_Some_2 ipack k) as [ik Hik].
    { unfold ipack. rewrite length_map. lia. }
    assert (at2 r0 m p = Some NaN) as Hrmp.
    { unfold at2, r0. rewrite lookup_replicate_2 by done.
      cbn [mbind option_bind]. by apply lookup_replicate_2. }
    destruct (lookup_lt_is_Some_2 ocv m) as [orow Hom].
    { by rewrite (shape2_length _ _ _ Ho). }
    destruct (lookup_lt_is_Some_2 orow p) as [o Hop].
    { by rewrite (shape2_lookup _ _ _ _ _ Ho Hom). }
    destruct (lookup_lt_is_Some_2 (module_voltages ocv r0 ik) m) as [vm Hvm].
    { by rewrite (module_voltages_length _ _ _ _ ik Ho Hr). }
    destruct (solver_run n_series n_parallel ocv r0 ipack)
      as (cells & Hsol & _ & Hin & _).
    rewrite solver_solved in Hsol. injection Hsol as Hsol.
    eexists _, cells2. split; [exact Hrun |]. split; [exact Hrmp |].
    change (i_cells (solved_store _ _ _)) with
      (solved_cells n_series n_parallel ocv r0 ipack).
    unfold at3. rewrite Hsol, (Hin k ik) by (done || lia).
    cbn [mbind option_bind]. unfold solved_grid.
    rewrite (cell_currents_at2 n_series n_parallel ocv r0 _ m p o NaN vm Ho
               (module_voltages_length _ _ _ _ ik Ho Hr)); try done.
    + simpl. by rewrite num_div_nan.
    + unfold at2. by rewrite Hom.
  - destruct (solver_run 2 3 ocv_3v7_b64 (replicate 2 (replicate 3 nan))
                (i_pack_b64 2 30)) as (cells & Hrun & _ & Hin & _).
    exists cells. split; [vm_compute; reflexivity |]. split; [exact Hrun |].
    unfold at3. rewrite (Hin 1 30%float) by done. vm_compute. reflexivity.
Qed.
End ScriptCurrents.

Section CellOrder.
Variables n_series n_parallel : nat.

Lemma Qc_sum_Permutation (l l' : list Qc) : l ≡ₚ l' -> Qc_sum l = Qc_sum l'.
Proof.
  induction 1 as [|x l l' _ IH|x y l|l1 l2 l3 _ IH1 _ IH2]; simpl.
  - done.
  - by rewrite IH.
  - ring.
  - by rewrite IH1.
Qed.

Lemma sums_of_pairs (os rs : list Qc) :
  length os = length rs ->
  sumA os rs = Qc_sum ((fun '(o, r) => (o / r)%Qc) <$> zip os rs) /\
  sumB rs = Qc_sum ((fun '(_, r) => Qc_recip r) <$> zip os rs).
Proof.
  revert rs. induction os as [|o os IH]; intros [|r rs] Hlen; try done.
  injection Hlen as Hlen. destruct (IH rs Hlen) as [HA HB].
  unfold sumA, sumB in *. csimpl. by rewrite HA, HB.
Qed.

(** X13.  The order of the cells in a module does not matter.  Two
    modules that hold the same cells (the same pairs of open-circuit
    voltage and resistance) in a different order have the same module
    voltage, and a cell carries the same current in both. *)
Theorem cell_order_irrelevant n_series' ocv (r0 : list (list num)) ocv'
    (r0' : list (list num)) ipack k m m' os rs os' rs' i p q o r :
  shape2 n_series n_parallel ocv -> shape2 n_series n_parallel r0 ->
  shape2 n_series' n_parallel ocv' -> shape2 n_series' n_parallel r0' ->
  1 <= k -> ipack !! k = Some (Fin i) ->
  ocv !! m = Some (Fin <$> os) -> r0 !! m = Some (Fin <$> rs) ->
  ocv' !! m' = Some (Fin <$> os') -> r0' !! m' = Some (Fin <$> rs') ->
  zip os rs ≡ₚ zip os' rs' ->
  Forall (fun r => r <> 0%Qc) rs -> sumB rs <> 0%Qc ->
  os !! p = Some o -> rs !! p = Some r ->
  os' !! q = Some o -> rs' !! q = Some r ->
  exists cells cells' v x,
    solver n_series n_parallel ocv r0 ipack = Ok cells /\
    solver n_series' n_parallel ocv' r0' ipack = Ok cells' /\
    module_voltages ocv r0 (Fin i) !! m = Some (Fin v) /\
    module_voltages ocv' r0' (Fin i) !! m' = Some (Fin v) /\
    at3 cells k m p = Some (Fin x) /\ at3 cells' k m' q = Some (Fin x).
Proof.
  intros Ho Hr Ho' Hr' Hk Hik Hom Hrm Hom' Hrm' Hperm Hrs HB Hop Hrp Hoq Hrq.
  assert (length os = length rs) as Hlen.
  { pose proof (shape2_lookup _ _ _ _ _ Ho Hom) as H1.
    pose proof (shape2_lookup _ _ _ _ _ Hr Hrm) as H2.
    rewrite length_fmap in H1, H2. congruence. }
  assert (length os' = length rs') as Hlen'.
  { pose proof (shape2_lookup _ _ _ _ _ Ho' Hom') as H1.
    pose proof (shape2_lookup _ _ _ _ _ Hr' Hrm') as H2.
    rewrite length_fmap in H1, H2. congruence. }
  destruct (sums_of_pairs os rs Hlen) as [HA HBs].
  destruct (sums_of_pairs os' rs' Hlen') as [HA' HBs'].
  assert (sumA os' rs' = sumA os rs) as HAeq.
  { rewrite HA, HA'. apply Qc_sum_Permutation. by rewrite Hperm. }
  assert (sumB rs' = sumB rs) as HBeq.
  { rewrite HBs, HBs'. apply Qc_sum_Permutation. by rewrite Hperm. }
  assert (Forall (fun r => r <> 0%Qc) rs') as Hrs'.
  { rewrite <- (snd_zip os' rs') by lia. rewrite <- Hperm.
    rewrite snd_zip by lia. done. }
  assert (sumB rs' <> 0%Qc) as HB' by (by rewrite HBeq).
  destruct (solver_cell_fin n_series n_parallel ocv r0 ipack m os rs
              Ho Hr Hom Hrm Hrs HB) as (cells & Hrun & Hcell).
  destruct (solver_cell_fin n_series' n_parallel ocv' r0' ipack m' os' rs'
              Ho' Hr' Hom' Hrm' Hrs' HB') as (cells' & Hrun' & Hcell').
  eexists cells, cells', _, _. split; [done |]. split; [done |].
  split; [|split; [|split]].
  - rewrite (module_voltages_lookup _ _ _ _ _ _ Hom Hrm).
    by rewrite module_voltage_fin.
  - rewrite (module_voltages_lookup _ _ _ _ _ _ Hom' Hrm').
    by rewrite module_voltage_fin, HAeq, HBeq.
  - by apply (Hcell k i p o r).
  - rewrite (Hcell' k i q o r) by done. by rewrite HAeq, HBeq.
Qed.
End CellOrder.

Section Discharge.
Variables n_series n_parallel : nat.

Lemma sumA_upper (omax : Qc) (os rs : list Qc) :
  length os = length rs ->
  Forall (fun r => (0 < r)%Qc) rs -> Forall (fun o => (o <= omax)%Qc) os ->
  (sumA os rs <= omax * sumB rs)%Qc.
Proof.
  intros Hlen Hrs. revert os Hlen.
  induction Hrs as [|r rs Hr _ IH]; intros [|o os] Hlen Hos; try done.
  - unfold sumA, sumB. simpl. rewrite Qcmult_0_r. apply Qcle_refl.
  - injection Hlen as Hlen. apply Forall_cons in Hos as [Ho Hos].
    change (sumA (o :: os) (r :: rs)) with (o / r + sumA os rs)%Qc.
    change (sumB (r :: rs)) with (Qc_recip r + sumB rs)%Qc.
    rewrite Qcmult_plus_distr_r. apply Qcplus_le_compat; [|by apply IH].
    replace (o / r)%Qc with (o * Qc_recip r)%Qc
      by (unfold Qc_recip, Qcdiv; ring).
    apply Qcmult_le_compat_r; [done |].
    by apply Qclt_le_weak, Qc_recip_pos.
Qed.

Lemma sumB_pos (rs : list Qc) :
  rs <> [] -> Forall (fun r => (0 < r)%Qc) rs -> (0 < sumB rs)%Qc.
Proof.
  intros Hne Hpos. destruct Hpos as [|r rs Hr Hrs]; [done |].
  change (sumB (r :: rs)) with (Qc_recip r + sumB rs)%Qc.
  apply Qcplus_pos; [by apply Qc_recip_pos | by apply sumB_nonneg].
Qed.

(** The module voltage of a discharging module is at most its largest
    open-circuit voltage. *)
Lemma discharge_voltage_upper (omax i : Qc) (os rs : list Qc) :
  length os = length rs -> rs <> [] ->
  Forall (fun r => (0 < r)%Qc) rs -> Forall (fun o => (o <= omax)%Qc) os ->
  (0 <= i)%Qc ->
  ((sumA os rs - i) / sumB rs <= omax)%Qc.
Proof.
  intros Hlen Hne Hrs Hos Hi.
  pose proof (sumB_pos rs Hne Hrs) as HB.
  pose proof (sumA_upper omax os rs Hlen Hrs Hos) as HA.
  assert (sumB rs <> 0%Qc) as HB0.
  { intros H0. rewrite H0 in HB. by apply (Qclt_not_eq _ _ HB). }
  apply Qcle_trans with (omax * sumB rs * Qc_recip (sumB rs))%Qc.
  - replace ((sumA os rs - i) / sumB rs)%Qc
      with ((sumA os rs - i) * Qc_recip (sumB rs))%Qc
      by (unfold Qc_recip, Qcdiv; ring).
    apply Qcmult_le_compat_r; [|by apply Qclt_le_weak, Qc_recip_pos].
    apply Qcle_trans with (sumA os rs); [|done].
    apply Qcle_minus_iff.
    replace (sumA os rs + - (sumA os rs - i))%Qc with i by ring. done.
  - replace (omax * sumB rs * Qc_recip (sumB rs))%Qc with omax
      by (unfold Qc_recip; by field).
    apply Qcle_refl.
Qed.

(** X14.  The strongest cell is never charged during discharge.  With
    positive resistances and a pack current that is not negative, the
    module voltage is at most the largest open-circuit voltage of the
    module, and the cell that holds it carries a current that is not
    negative. *)
Theorem strongest_cell_discharges ocv (r0 : list (list num)) ipack k m os rs
    i p o r :
  shape2 n_series n_parallel ocv -> shape2 n_series n_parallel r0 ->
  1 <= k -> ipack !! k = Some (Fin i) -> (0 <= i)%Qc ->
  ocv !! m = Some (Fin <$> os) -> r0 !! m = Some (Fin <$> rs) ->
  Forall (fun r => (0 < r)%Qc) rs ->
  os !! p = Some o -> rs !! p = Some r ->
  Forall (fun o' => (o' <= o)%Qc) os ->
  exists cells v x,
    solver n_series n_parallel ocv r0 ipack = Ok cells /\
    module_voltages ocv r0 (Fin i) !! m = Some (Fin v) /\ (v <= o)%Qc /\
    at3 cells k m p = Some (Fin x) /\ (0 <= x)%Qc.
Proof.
  intros Ho Hr Hk Hik Hi Hom Hrm Hpos Hop Hrp Hmax.
  assert (length os = length rs) as Hlen.
  { pose proof (shape2_lookup _ _ _ _ _ Ho Hom) as H1.
    pose proof (shape2_lookup _ _ _ _ _ Hr Hrm) as H2.
    rewrite length_fmap in H1, H2. congruence. }
  assert (rs <> []) as Hne by (intros ->; done).
  destruct (positive_resistances_valid rs Hne Hpos) as [Hrs HB].
  destruct (solver_cell_fin n_series n_parallel ocv r0 ipack m os rs
              Ho Hr Hom Hrm Hrs HB) as (cells & Hrun & Hcell).
  pose proof (discharge_voltage_upper o i os rs Hlen Hne Hpos Hmax Hi) as Hv.
  eexists cells, _, _. split; [done |]. split; [|split; [exact Hv |]].
  - rewrite (module_voltages_lookup _ _ _ _ _ _ Hom Hrm).
    by rewrite module_voltage_fin.
  - split; [by apply (Hcell k i p o r) |].
    assert (0 < r)%Qc as Hr0 by (rewrite Forall_lookup in Hpos; eauto).
    replace ((o - (sumA os rs - i) / sumB rs) / r)%Qc
      with ((o - (sumA os rs - i) / sumB rs) * Qc_recip r)%Qc
      by (unfold Qc_recip, Qcdiv; ring).
    rewrite <- (Qcmult_0_l (Qc_recip r)).
    apply Qcmult_le_compat_r; [|by apply Qclt_le_weak, Qc_recip_pos].
    apply Qcle_minus_iff in Hv. done.
Qed.
End Discharge.

(** ** The per-cell loop *)

Section CellLoopIndices.
Context {F : Type} `{Arith F}.
Variables n_series n_parallel : nat.

(** X15.  The per-cell loop stays in range.  [i_cells2], [v_cells] and
    [temp_cells] all have [n_cells] rows of length [len(i_pack)], so every
    [k] of [range(n_cells)] indexes a row of each of them, the row of
    [i_cells2] is as long as the rows it is stored beside, and [n_cells]
    itself is the first index that is out of range. *)
Theorem cell_loop_in_range ocv (r0 : list (list F)) ipack :
  shape2 n_series n_parallel ocv -> shape2 n_series n_parallel r0 ->
  0 < length ipack ->
  exists cells cells2,
    solver n_series n_parallel ocv r0 ipack = Ok cells /\
    flatten_cells n_series n_parallel ipack cells = Ok cells2 /\
    shape2 (n_cells n_series n_parallel) (length ipack) cells2 /\
    shape2 (n_cells n_series n_parallel) (length ipack)
      (v_cells n_series n_parallel ipack) /\
    shape2 (n_cells n_series n_parallel) (length ipack)
      (temp_cells n_series n_parallel ipack) /\
    (forall k, k ∈ range 0 (n_cells n_series n_parallel) ->
       exists trace vrow trow,
         index cells2 k = Ok trace /\
         index (v_cells n_series n_parallel ipack) k = Ok vrow /\
         index (temp_cells n_series n_parallel ipack) k = Ok trow /\
         length trace = length vrow /\ length trace = length trow) /\
    index cells2 (n_cells n_series n_parallel) = Raise IndexError.
Proof.
  intros Ho Hr HT.
  destruct (solver_run n_series n_parallel ocv r0 ipack)
    as (cells & Hrun & _).
  pose proof (solver_shape _ _ _ _ _ _ Ho Hr Hrun) as Hs.
  destruct (flatten_cells_run n_series n_parallel ipack cells Hs HT)
    as (cells2 & Hflat & Hrows & Hcols & _).
  assert (n_cells n_series n_parallel = n_series * n_parallel) as Hn
    by (unfold n_cells; lia).
  assert (shape2 (n_cells n_series n_parallel) (length ipack)
            (zeros2 (F:=F) (n_cells n_series n_parallel) (length ipack)))
    as Hz by apply shape2_replicate.
  exists cells, cells2. split; [done |]. split; [done |].
  split; [by rewrite Hn |]. split; [exact Hz |]. split; [exact Hz |]. split.
  - intros k Hk. unfold range in Hk. apply elem_of_seq in Hk.
    destruct (lookup_lt_is_Some_2 cells2 k) as [trace Htr]; [lia |].
    assert (length trace = length ipack) as Hlen.
    { rewrite Forall_lookup in Hcols. eauto. }
    exists trace, (replicate (length ipack) fzero),
      (replicate (length ipack) fzero).
    unfold index, v_cells, temp_cells, zeros2. rewrite Htr.
    rewrite lookup_replicate_2 by lia.
    rewrite length_replicate. done.
  - unfold index. rewrite lookup_ge_None_2; [done | lia].
Qed.
End CellLoopIndices.

(** ** Instances of the further properties *)

Lemma shape2_mixed : shape2 2 3 ocv_mixed /\ shape2 2 3 r0_mixed.
Proof. split; (split; [reflexivity | repeat constructor]). Qed.

Lemma shape2_reordered : shape2 1 3 ocv_reordered /\ shape2 1 3 r0_reordered.
Proof. split; (split; [reflexivity | repeat constructor]). Qed.

(** The loop on the example pack with three timesteps. *)
Lemma solver_loop_closed_form_witness :
  solver_loop 2 3 (Store zi_example ocv_3v7 r0_10mohm (i_pack_30A 3) [] None)
  = Ok (solved_store 2 3
          (Store zi_example ocv_3v7 r0_10mohm (i_pack_30A 3) [] None)).
Proof.
  apply (solver_loop_closed_form 2 3
           (Store zi_example ocv_3v7 r0_10mohm (i_pack_30A 3) [] None));
    apply shape2_replicate.
Defined.

(** A second run of the loop on the example pack. *)
Lemma solver_loop_idempotent_witness :
  solver_loop 2 3
    (solved_store 2 3
       (Store zi_example ocv_3v7 r0_10mohm (i_pack_30A 3) [] None))
  = Ok (solved_store 2 3
          (Store zi_example ocv_3v7 r0_10mohm (i_pack_30A 3) [] None)).
Proof.
  apply (solver_loop_idempotent 2 3
           (Store zi_example ocv_3v7 r0_10mohm (i_pack_30A 3) [] None)).
  - apply shape2_replicate.
  - apply shape2_replicate.
  - apply solver_loop_solved.
Defined.

(** The shape of what the solver returns for the example pack. *)
Lemma solver_output_shape_witness :
  exists cells,
    solver 2 3 ocv_3v7 r0_10mohm (i_pack_30A 3) = Ok cells /\
    shape3 3 2 3 cells.
Proof.
  apply (solver_output_shape 2 3 ocv_3v7 r0_10mohm (i_pack_30A 3));
    apply shape2_replicate.
Defined.

(** The two modules of the example pack carry the same currents. *)
Lemma module_locality_witness :
  exists cells cells' row,
    solver 2 3 ocv_3v7 r0_10mohm (i_pack_30A 2) = Ok cells /\
    solver 2 3 ocv_3v7 r0_10mohm (i_pack_30A 2) = Ok cells' /\
    cells !! 1 ≫= (.!! 0) = Some row /\
    cells' !! 1 ≫= (.!! 1) = Some row.
Proof.
  apply (module_locality 2 3 2 ocv_3v7 r0_10mohm ocv_3v7 r0_10mohm
           (i_pack_30A 2) (i_pack_30A 2) 1 1 0 1 (dec 30 1)
           (replicate 3 (dec 37 10)) (replicate 3 (dec 1 100)));
    (apply shape2_replicate || lia || reflexivity).
Defined.

(** The last row of [i_cells2] for the example pack. *)
Lemma traces_start_at_zero_witness :
  exists cells cells2,
    solver 2 3 ocv_3v7 r0_10mohm (i_pack_30A 2) = Ok cells /\
    flatten_cells 2 3 (i_pack_30A 2) cells = Ok cells2 /\
    at2 cells2 5 0 = Some (Fin 0).
Proof.
  refine (traces_start_at_zero 2 3 ocv_3v7 r0_10mohm (i_pack_30A 2) 5
            _ _ _ _); (apply shape2_replicate || (simpl; lia)).
Defined.

(** The module of three different cells at timestep 1. *)
Lemma equal_terminal_voltage_witness :
  exists cells v,
    solver 2 3 ocv_mixed r0_mixed (i_pack_30A 2) = Ok cells /\
    module_voltages ocv_mixed r0_mixed (dec 30 1) !! 0 = Some (Fin v) /\
    exists x, at3 cells 1 0 2 = Some (Fin x) /\
              (Q2Qc (38 # 10) - x * Q2Qc (2 # 100) = v)%Qc.
Proof.
  destruct (equal_terminal_voltage 2 3 ocv_mixed r0_mixed (i_pack_30A 2) 1 0
              [Q2Qc (37 # 10); Q2Qc (36 # 10); Q2Qc (38 # 10)]
              [Q2Qc (1 # 100); Q2Qc (2 # 100); Q2Qc (2 # 100)]
              (Q2Qc (30 # 1))) as (cells & v & Hrun & Hv & Hcell).
  - apply shape2_mixed.
  - apply shape2_mixed.
  - lia.
  - reflexivity.
  - reflexivity.
  - reflexivity.
  - repeat constructor; apply Qc_neq_bool; vm_compute; reflexivity.
  - apply Qc_neq_bool. vm_compute. reflexivity.
  - exists cells, v. split; [exact Hrun |]. split; [exact Hv |].
    apply (Hcell 2); reflexivity.
Defined.

(** Equal voltages over resistances of 0.01, 0.02 and 0.02 ohm. *)
Lemma current_divider_witness :
  exists cells,
    solver 2 3 ocv_3v7 r0_mixed (i_pack_30A 2) = Ok cells /\
    at3 cells 1 0 0 =
    Some (Fin (Q2Qc (30 # 1)
               * conductance_share
                   [Q2Qc (1 # 100); Q2Qc (2 # 100); Q2Qc (2 # 100)]
                   (Q2Qc (1 # 100)))).
Proof.
  apply (current_divider 2 3 ocv_3v7 r0_mixed (i_pack_30A 2) 1 0
           (Q2Qc (37 # 10))
           [Q2Qc (1 # 100); Q2Qc (2 # 100); Q2Qc (2 # 100)]
           (Q2Qc (30 # 1)) 0 (Q2Qc (1 # 100))).
  - apply shape2_replicate.
  - apply shape2_mixed.
  - lia.
  - reflexivity.
  - reflexivity.
  - reflexivity.
  - repeat constructor; apply Qc_neq_bool; vm_compute; reflexivity.
  - apply Qc_neq_bool. vm_compute. reflexivity.
  - reflexivity.
Defined.

(** A step of the pack current from 30 A to 15 A. *)
Lemma current_change_by_share_witness :
  exists cells x x',
    solver 2 3 ocv_mixed r0_mixed i_pack_step = Ok cells /\
    at3 cells 1 0 1 = Some (Fin x) /\ at3 cells 2 0 1 = Some (Fin x') /\
    (x - x' = (Q2Qc (30 # 1) - Q2Qc (15 # 1))
              * conductance_share
                  [Q2Qc (1 # 100); Q2Qc (2 # 100); Q2Qc (2 # 100)]
                  (Q2Qc (2 # 100)))%Qc.
Proof.
  apply (current_change_by_share 2 3 ocv_mixed r0_mixed i_pack_step 1 2 0
           [Q2Qc (37 # 10); Q2Qc (36 # 10); Q2Qc (38 # 10)]
           [Q2Qc (1 # 100); Q2Qc (2 # 100); Q2Qc (2 # 100)]
           (Q2Qc (30 # 1)) (Q2Qc (15 # 1)) 1 (Q2Qc (36 # 10))).
  - apply shape2_mixed.
  - apply shape2_mixed.
  - lia.
  - lia.
  - reflexivity.
  - reflexivity.
  - reflexivity.
  - reflexivity.
  - repeat constructor; apply Qc_neq_bool; vm_compute; reflexivity.
  - apply Qc_neq_bool. vm_compute. reflexivity.
  - reflexivity.
  - reflexivity.
Defined.

(** The sound module of the pack whose other module has a cell of
    resistance zero. *)
Lemma positive_module_is_finite_witness :
  exists cells x,
    solver 2 3 ocv_3v7 r0_one_short (i_pack_30A 2) = Ok cells /\
    at3 cells 1 1 2 = Some (Fin x).
Proof.
  destruct (positive_module_is_finite 2 3 ocv_3v7 r0_one_short (i_pack_30A 2)
              1 (replicate 3 (Q2Qc (37 # 10))) (replicate 3 (Q2Qc (1 # 100))))
    as ((cells & Hrun & Hfin) & _).
  - apply shape2_replicate.
  - split; [reflexivity | repeat constructor].
  - reflexivity.
  - reflexivity.
  - repeat constructor.
  - destruct (Hfin 1 (Q2Qc (30 # 1)) 2) as [x Hx]; [reflexivity | lia |].
    exists cells, x. split; [exact Hrun | exact Hx].
Defined.

(** The example inputs of lines 71-83: interpolation on the two sample
    points gives the open-circuit voltages 4.12, 4.14 and 4.18 V to the
    first module. *)
Lemma example_ocv_row :
  (map (interp_linear (reverse z_pts_example) (reverse v_pts_example))
     <$> zi_example) !! 0
  = Some (Fin <$> [Q2Qc (412 # 100); Q2Qc (414 # 100); Q2Qc (418 # 100)]).
Proof.
  vm_compute. apply (f_equal Some).
  repeat (apply (f_equal2 cons); [apply (f_equal Fin), Qc_is_canon; reflexivity |]).
  reflexivity.
Qed.

(** Lines 71-83 on the example table and a current of two timesteps. *)
Lemma pack_calculation_outcome_witness :
  exists col st cells2,
    Forall2 (fun row x => row !! 2 = Some x) (tab_rows rctau_example) col /\
    pack_calculation 2 3 interp_linear zi_example z_pts_example v_pts_example
      rctau_example (replicate 2 (dec 10 1)) = Ok (st, cells2) /\
    zi st = zi_example.
Proof.
  destruct (pack_calculation_outcome 2 3 interp_linear zi_example
              z_pts_example v_pts_example rctau_example
              (replicate 2 (dec 10 1)))
    as (_ & _ & _ & Hok).
  - split; [reflexivity | repeat constructor].
  - repeat constructor.
  - destruct Hok as (col & st & cells2 & Hcol & Hrun & Hz & _).
    + discriminate.
    + reflexivity.
    + simpl. lia.
    + discriminate.
    + exists col, st, cells2. split; [exact Hcol |].
      split; [exact Hrun | exact Hz].
Defined.

(** A module of the example run carries 30 A for a cell current of 10 A. *)
Lemma script_module_current_witness :
  exists st cells2 row,
    pack_calculation 2 3 interp_linear zi_example z_pts_example v_pts_example
      rctau_example (replicate 2 (dec 10 1)) = Ok (st, cells2) /\
    i_cells st !! 1 ≫= (.!! 0) = Some row /\
    np_sum row = Fin (Q2Qc (10 # 1) * Qc_of_nat 3).
Proof.
  apply (script_module_current 2 3 interp_linear zi_example z_pts_example
           v_pts_example rctau_example (replicate 2 (dec 10 1))
           [Q2Qc (1 # 100); Q2Qc (3 # 100)] (Q2Qc (10 # 1))
           [Q2Qc (412 # 100); Q2Qc (414 # 100); Q2Qc (418 # 100)]).
  - split; [reflexivity | repeat constructor].
  - lia.
  - discriminate.
  - reflexivity.
  - simpl. lia.
  - repeat constructor.
  - discriminate.
  - apply Qc_neq_bool. vm_compute. reflexivity.
  - exact example_ocv_row.
  - lia.
  - reflexivity.
Defined.

(** The example run with a table of three columns that has no rows. *)
Lemma empty_table_gives_nan_witness :
  exists st cells2,
    pack_calculation 2 3 interp_linear zi_example z_pts_example v_pts_example
      (Table 3 []) (replicate 2 (dec 10 1)) = Ok (st, cells2) /\
    at2 (r0_cells st) 0 0 = Some NaN /\
    at3 (i_cells st) 1 0 0 = Some NaN.
Proof.
  destruct (empty_table_gives_nan 2 3 interp_linear zi_example z_pts_example
              v_pts_example 3 (replicate 2 (dec 10 1)) 1 0 0) as [Hexact _].
  - split; [reflexivity | repeat constructor].
  - discriminate.
  - reflexivity.
  - lia.
  - simpl. lia.
  - lia.
  - lia.
  - exact Hexact.
Defined.

(** The cell of 3.7 V and 0.01 ohm, first in one module and second in the
    other. *)
Lemma cell_order_irrelevant_witness :
  exists cells cells' v x,
    solver 2 3 ocv_mixed r0_mixed (i_pack_30A 2) = Ok cells /\
    solver 1 3 ocv_reordered r0_reordered (i_pack_30A 2) = Ok cells' /\
    module_voltages ocv_mixed r0_mixed (dec 30 1) !! 0 = Some (Fin v) /\
    module_voltages ocv_reordered r0_reordered (dec 30 1) !! 0
      = Some (Fin v) /\
    at3 cells 1 0 0 = Some (Fin x) /\ at3 cells' 1 0 1 = Some (Fin x).
Proof.
  apply (cell_order_irrelevant 2 3 1 ocv_mixed r0_mixed ocv_reordered
           r0_reordered (i_pack_30A 2) 1 0 0
           [Q2Qc (37 # 10); Q2Qc (36 # 10); Q2Qc (38 # 10)]
           [Q2Qc (1 # 100); Q2Qc (2 # 100); Q2Qc (2 # 100)]
           [Q2Qc (38 # 10); Q2Qc (37 # 10); Q2Qc (36 # 10)]
           [Q2Qc (2 # 100); Q2Qc (1 # 100); Q2Qc (2 # 100)]
           (Q2Qc (30 # 1)) 0 1 (Q2Qc (37 # 10)) (Q2Qc (1 # 100))).
  - apply shape2_mixed.
  - apply shape2_mixed.
  - apply shape2_reordered.
  - apply shape2_reordered.
  - lia.
  - reflexivity.
  - reflexivity.
  - reflexivity.
  - reflexivity.
  - reflexivity.
  - simpl. etrans; [apply Permutation_skip, Permutation_swap |].
    apply Permutation_swap.
  - repeat constructor; apply Qc_neq_bool; vm_compute; reflexivity.
  - apply Qc_neq_bool. vm_compute. reflexivity.
  - reflexivity.
  - reflexivity.
  - reflexivity.
  - reflexivity.
Defined.

(** The cell of 3.8 V in the module of three different cells. *)
Lemma strongest_cell_discharges_witness :
  exists cells v x,
    solver 2 3 ocv_mixed r0_mixed (i_pack_30A 2) = Ok cells /\
    module_voltages ocv_mixed r0_mixed (dec 30 1) !! 0 = Some (Fin v) /\
    (v <= Q2Qc (38 # 10))%Qc /\
    at3 cells 1 0 2 = Some (Fin x) /\ (0 <= x)%Qc.
Proof.
  apply (strongest_cell_discharges 2 3 ocv_mixed r0_mixed (i_pack_30A 2) 1 0
           [Q2Qc (37 # 10); Q2Qc (36 # 10); Q2Qc (38 # 10)]
           [Q2Qc (1 # 100); Q2Qc (2 # 100); Q2Qc (2 # 100)]
           (Q2Qc (30 # 1)) 2 (Q2Qc (38 # 10)) (Q2Qc (2 # 100))).
  - apply shape2_mixed.
  - apply shape2_mixed.
  - lia.
  - reflexivity.
  - discriminate.
  - reflexivity.
  - reflexivity.
  - repeat constructor.
  - reflexivity.
  - reflexivity.
  - repeat constructor; discriminate.
Defined.

(** The six rows of the example pack. *)
Lemma cell_loop_in_range_witness :
  exists cells cells2,
    solver 2 3 ocv_3v7 r0_10mohm (i_pack_30A 2) = Ok cells /\
    flatten_cells 2 3 (i_pack_30A 2) cells = Ok cells2 /\
    shape2 6 2 cells2 /\
    index cells2 6 = Raise IndexError.
Proof.
  destruct (cell_loop_in_range 2 3 ocv_3v7 r0_10mohm (i_pack_30A 2))
    as (cells & cells2 & Hrun & Hflat & Hs & _ & _ & _ & Hout).
  - apply shape2_replicate.
  - apply shape2_replicate.
  - simpl. lia.
  - exists cells, cells2. split; [exact Hrun |]. split; [exact Hflat |].
    split; [exact Hs | exact Hout].
Defined.
